(** * flowlib: a shallow embedding of the flow-execution engine

    The development follows [src/flowlib.py]: the declarative data model
    ([API], [APILinkage], [PythonLinkage], [APIFlow]), the [Getter] with its
    response cache, semaphore and retry loop, and [run_flow] with its
    [process_linkage] closure.

    Python dictionaries whose iteration order the program observes are
    insertion-ordered association lists ([PyDict]); dictionaries that are
    only probed by key ([Getter.cache], [API.input_params],
    [API.error_handlers], [API.credentials]) are stdpp finite maps.

    Coroutines are functions in a state-and-exception monad.  The state
    carries what the coroutines share (cache, semaphore, the [results]
    accumulator of the running flow) together with a trace of the effects
    they perform and a count of the requests sent.

    [asyncio.gather] runs its awaitables one after the other, in argument
    order, each to completion, and stops at the first that raises.  This is
    the schedule of a getter with one worker, whose semaphore lets one fetch
    run at a time; the interleavings of sibling fetches that the event loop
    may choose with more workers are not described. *)

From Stdlib Require Import ZArith Lia Ascii.
From stdpp Require Import gmap strings list fin_maps.

Local Open Scope string_scope.
Local Open Scope list_scope.
Set Warnings "-register-all".

(** ** Python values *)

(** The values that travel through the engine: parsed JSON documents, the
    values matched by a path expression, the [None] sentinel, and the
    dictionaries the engine builds from them. *)
Inductive value : Type :=
| VNone
| VBool (b : bool)
| VInt (z : Z)
| VStr (s : string)
| VList (vs : list value)
| VDict (kvs : list (string * value)).

(** Exceptions.  [ClientResponseError] stands for [aiohttp.ClientResponseError]
    and its subclasses (they carry a [status]); every other constructor is an
    exception class outside that hierarchy. *)
Inductive exn : Type :=
| ClientResponseError (status : Z)
| ConnectionResetError
| KeyError (key : string)
| TypeError (what : string)
| AttributeError (what : string)
| ValueError (what : string)
| OtherError (name : string).

(** ** Insertion-ordered dictionaries with string keys *)

Module PyDict.

Definition dict (V : Type) : Type := list (string * V).

Section ops.
Context {V : Type}.

(** [d.get(k)] *)
Fixpoint get (d : dict V) (k : string) : option V :=
  match d with
  | [] => None
  | (k', v) :: d' => if decide (k' = k) then Some v else get d' k
  end.

(** [d[k] = v]: an existing key keeps its position, a new key goes last. *)
Fixpoint set (d : dict V) (k : string) (v : V) : dict V :=
  match d with
  | [] => [(k, v)]
  | (k', v') :: d' =>
      if decide (k' = k) then (k, v) :: d' else (k', v') :: set d' k v
  end.

(** [d.update(delta)] *)
Definition update (d delta : dict V) : dict V :=
  fold_left (fun acc kv => set acc kv.1 kv.2) delta d.

Definition keys (d : dict V) : list string := d.*1.

End ops.

End PyDict.

Abbreviation dict := PyDict.dict.

(** Parameter maps are [Dict[str, str]]. *)
Abbreviation pdict := (PyDict.dict string).

Definition params_value (params : pdict) : value :=
  VDict (prod_map id VStr <$> params).

(** [v[k]] on a Python value. *)
Definition subscript (v : value) (k : string) : exn + value :=
  match v with
  | VDict d =>
      match PyDict.get d k with
      | Some x => inr x
      | None => inl (KeyError k)
      end
  | _ => inl (TypeError "subscript")
  end.

(** [v.items()] *)
Definition items (v : value) : exn + dict value :=
  match v with
  | VDict d => inr d
  | _ => inl (AttributeError "items")
  end.

(** [values if isinstance(values, list) else [values]] *)
Definition as_list (v : value) : list value :=
  match v with
  | VList vs => vs
  | _ => [v]
  end.

(** [matches or None] *)
Definition or_None (matches : list value) : value :=
  match matches with
  | [] => VNone
  | _ => VList matches
  end.

(** ** The declarative data model *)

Inductive param_kind : Type := URLParam | DataParam.

#[global] Instance param_kind_eq_dec : EqDecision param_kind.
Proof. solve_decision. Defined.

(** What [session.request] hands back: the status line and what awaiting
    [response.json()] produces. *)
Record Response : Type := mkResponse {
  status : Z;
  json : exn + value
}.

Record API : Type := mkAPI {
  base_url : string;
  method : string;
  input_params : gmap string param_kind;
  output_params : dict string;
  credentials : gmap string pdict;
  error_handlers : gmap Z (Response -> exn + value);
  data_template : dict value
}.

(** User-supplied callables (error handlers, linkage functions, transform
    functions) either return a value or raise.

    The dataclass constructor followed by [__post_init__]: a missing
    argument becomes the empty dictionary. *)
Definition API_init (base_url : string) (method : option string)
    (input_params : option (gmap string param_kind))
    (output_params : option (dict string))
    (credentials : option (gmap string pdict))
    (error_handlers : option (gmap Z (Response -> exn + value)))
    (data_template : option (dict value)) : API :=
  {| base_url := base_url;
     method := default "GET" method;
     input_params := default ∅ input_params;
     output_params := default [] output_params;
     credentials := default ∅ credentials;
     error_handlers := default ∅ error_handlers;
     data_template := default [] data_template |}.

Inductive linkage : Type :=
| APILinkage (start_api end_api : API)
    (linkage_function : dict value -> exn + list pdict)
| PythonLinkage (function : dict value -> exn + dict value).

Record APIFlow : Type := mkAPIFlow { linkages : list linkage }.

(** ** The outside world *)

Record Request : Type := mkRequest {
  rq_method : string;
  rq_url : string;
  rq_headers : option pdict;
  rq_cookies : option pdict;
  rq_json : dict value
}.

(** The collaborators the engine calls but does not define: [str.format],
    [jsonpath_ng.parse] (with [find] and the projection to the matched
    values), and the network behind [session.request], which answers the
    [n]-th request issued through the getter. *)
Record Env : Type := mkEnv {
  str_format : string -> pdict -> exn + string;
  jsonpath : string -> exn + (value -> list value);
  session_request : nat -> Request -> exn + Response
}.

(** ** Getter state and effects *)

Abbreviation cache_key_t := (string * gset (string * string))%type.

Inductive log_record : Type :=
| LogStatus (url : string) (status : Z)
| LogRetry (base_url : string) (status : Z)
| LogGiveUp (max_retries : Z) (base_url : string).

Inductive event : Type :=
| EvCall (base_url : string) (params : pdict)
| EvLookup (key : cache_key_t) (hit : bool)
| EvRequest (rq : Request)
| EvHandler (status : Z)
| EvLog (r : log_record)
| EvSleep (seconds : Z)
| EvLinkage (output_data : dict value)
| EvCallback (results : dict value).

Record Getter : Type := mkGetter {
  max_retries : Z;
  workers : Z
}.

Record state : Type := mkState {
  cache : gmap cache_key_t value;
  semaphore : Z;
  requests_made : nat;
  trace : list event;
  results : dict value
}.

(** [Getter.__init__]: an empty cache and a semaphore holding [workers]
    permits; [asyncio.Semaphore] rejects a negative initial value. *)
Definition Getter_init (max_retries workers : Z) : exn + Getter * state :=
  if decide (workers < 0)%Z then inl (ValueError "Semaphore initial value must be >= 0")
  else inr (mkGetter max_retries workers,
            mkState ∅ workers 0 [] []).

Inductive outcome (A : Type) : Type :=
| Return (a : A)
| Raise (e : exn)
| Hang.
Arguments Return {A} a.
Arguments Raise {A} e.
Arguments Hang {A}.

Definition M (A : Type) : Type := state -> outcome A * state.

Definition ret {A} (a : A) : M A := fun s => (Return a, s).

Definition bind {A B} (m : M A) (k : A -> M B) : M B :=
  fun s =>
    match m s with
    | (Return a, s') => k a s'
    | (Raise e, s') => (Raise e, s')
    | (Hang, s') => (Hang, s')
    end.

Notation "x <- m ;; k" := (bind m (fun x => k))
  (at level 100, m at next level, right associativity, only parsing).
Notation "m ;;; k" := (bind m (fun _ => k))
  (at level 100, right associativity, only parsing).

Definition lift {A} (r : exn + A) : M A :=
  fun s => match r with inl e => (Raise e, s) | inr a => (Return a, s) end.

Definition emit (e : event) : M unit :=
  fun s => (Return tt,
            mkState (cache s) (semaphore s) (requests_made s)
                    (trace s ++ [e]) (results s)).

Definition cache_put (k : cache_key_t) (r : value) : M unit :=
  fun s => (Return tt,
            mkState (<[k := r]> (cache s)) (semaphore s) (requests_made s)
                    (trace s) (results s)).

Definition set_semaphore (n : Z) : M unit :=
  fun s => (Return tt,
            mkState (cache s) n (requests_made s) (trace s) (results s)).

Definition results_put (k : string) (r : value) : M unit :=
  fun s => (Return tt,
            mkState (cache s) (semaphore s) (requests_made s) (trace s)
                    (PyDict.set (results s) k r)).

Definition results_set (rs : dict value) : M unit :=
  fun s => (Return tt,
            mkState (cache s) (semaphore s) (requests_made s) (trace s) rs).

(** [callback(results)]: the callback is an observer; it sees the
    accumulator as it is now, returns, and leaves it as it found it. *)
Definition callback : M unit :=
  fun s => emit (EvCallback (results s)) s.

(** [await asyncio.gather] over the awaitables [ms]: they run one after
    the other, in argument order, each to completion, and the first
    exception ends the wait.  This is exact for a single awaitable and for
    awaitables that never suspend; how the event loop interleaves several
    awaitables that suspend is not described. *)
Fixpoint gather {A} (ms : list (M A)) : M (list A) :=
  match ms with
  | [] => ret []
  | m :: ms' => a <- m ;; rest <- gather ms' ;; ret (a :: rest)
  end.

(** [for x in xs: body(x)] *)
Fixpoint for_each {A} (xs : list A) (body : A -> M unit) : M unit :=
  match xs with
  | [] => ret tt
  | x :: xs' => body x ;;; for_each xs' body
  end.

(** ** Getter *)

Section Getter.
Context (E : Env).

(** [API.build_url] *)
Definition build_url (api : API) (url_params : pdict) : exn + string :=
  str_format E (base_url api) url_params.

(** [Getter.populate_template], by recursion on the template seen as a
    value; the keys of a template are distinct, so filling [populated] key
    by key lists them in the template's order. *)
Fixpoint populate_value (template : value) (params : dict value) : dict value :=
  match template with
  | VDict [] => params
  | VDict t =>
      (fix items_of (t : list (string * value)) : dict value :=
         match t with
         | [] => []
         | (key, v) :: t' =>
             (key, match v with
                   | VDict _ => VDict (populate_value v params)
                   | _ => default v (PyDict.get params key)
                   end) :: items_of t'
         end) t
  | _ => params
  end.

Definition populate_template (template params : dict value) : dict value :=
  populate_value (VDict template) params.

Definition cache_key (api : API) (params : pdict) : cache_key_t :=
  (base_url api, list_to_set params).

(** The extraction loop of [fetch]: one [outputs[param_name] = matches or
    None] per declared output field. *)
Fixpoint extract (fields : dict string) (response_json : value)
    (outputs : dict value) : exn + dict value :=
  match fields with
  | [] => inr outputs
  | (param_name, jsonpath_expr) :: fields' =>
      match jsonpath E jsonpath_expr with
      | inl e => inl e
      | inr find =>
          extract fields' response_json
            (PyDict.set outputs param_name (or_None (find response_json)))
      end
  end.

(** [await session.request(...)]: the request leaves, the world answers. *)
Definition request (rq : Request) : M Response :=
  fun s =>
    let s' := mkState (cache s) (semaphore s) (S (requests_made s))
                      (trace s ++ [EvRequest rq]) (results s) in
    match session_request E (requests_made s) rq with
    | inl e => (Raise e, s')
    | inr response => (Return response, s')
    end.

Definition has_kind (api : API) (kind : param_kind) (kv : string * string) : bool :=
  bool_decide (input_params api !! kv.1 = Some kind).

Definition build_request (api : API) (params : pdict) (url : string) : Request :=
  let data_parameters := List.filter (has_kind api DataParam) params in
  {| rq_method := method api;
     rq_url := url;
     rq_headers := credentials api !! "headers";
     rq_cookies := credentials api !! "cookies";
     rq_json := populate_template (data_template api)
                  (prod_map id VStr <$> data_parameters) |}.

Definition fetch_result (params : pdict) (outputs : value) : value :=
  VDict [("input", params_value params); ("output", outputs)].

(** [Getter.fetch] *)
Definition fetch (api : API) (params : pdict) : M value :=
  fun s =>
    let key := cache_key api params in
    match cache s !! key with
    | Some r => (emit (EvLookup key true) ;;; ret r) s
    | None =>
        (emit (EvLookup key false) ;;;
         let url_parameters := List.filter (has_kind api URLParam) params in
         url <- lift (build_url api url_parameters) ;;
         response <- request (build_request api params url) ;;
         outputs <-
           (if decide (status response = 200%Z) then
              response_json <- lift (json response) ;;
              outputs <- lift (extract (output_params api) response_json []) ;;
              ret (VDict outputs)
            else
              match error_handlers api !! status response with
              | Some error_handler =>
                  emit (EvHandler (status response)) ;;;
                  lift (error_handler response)
              | None =>
                  emit (EvLog (LogStatus url (status response))) ;;;
                  ret (VDict [])
              end) ;;
         let result := fetch_result params outputs in
         cache_put key result ;;;
         ret result) s
    end.

(** [range(n)] *)
Definition py_range (n : Z) : list Z := Z.of_nat <$> seq 0 (Z.to_nat n).

(** The [for retry in range(self.max_retries)] loop of [fetch_with_retry]
    together with the two statements after it. *)
Fixpoint retry_loop (G : Getter) (api : API) (params : pdict)
    (retries : list Z) : M value :=
  match retries with
  | [] =>
      emit (EvLog (LogGiveUp (max_retries G) (base_url api))) ;;;
      ret (VDict [])
  | retry :: retries' =>
      fun s =>
        match fetch api params s with
        | (Raise (ClientResponseError st), s') =>
            (emit (EvLog (LogRetry (base_url api) st)) ;;;
             emit (EvSleep (2 ^ retry)) ;;;
             retry_loop G api params retries') s'
        | r => r
        end
  end.

(** [async with self.semaphore: body]: a permit is taken, and given back
    on every way out of the body.  Coroutines run one at a time here, so
    that no sibling holds a permit while this one asks: the semaphore is
    without a permit only for a getter made with [workers = 0], and the
    coroutine then waits for a release that no one is there to make. *)
Definition with_semaphore {A} (body : M A) : M A :=
  fun s =>
    if decide (semaphore s <= 0)%Z then (Hang, s)
    else
      match (set_semaphore (semaphore s - 1) ;;; body) s with
      | (Hang, s') => (Hang, s')
      | (r, s') => (r, snd (set_semaphore (semaphore s' + 1) s'))
      end.

(** [Getter.fetch_with_retry] *)
Definition fetch_with_retry (G : Getter) (api : API) (params : pdict) : M value :=
  emit (EvCall (base_url api) params) ;;;
  with_semaphore (retry_loop G api params (py_range (max_retries G))).

(** The fan-out of one value of one output field:
    lines 154 to 161 of [process_linkage]. *)
Definition fan_out (G : Getter) (end_api : API)
    (linkage_function : dict value -> exn + list pdict)
    (key : string) (v : value) : M unit :=
  let output_data := [(key, v)] in
  emit (EvLinkage output_data) ;;;
  end_params_list <- lift (linkage_function output_data) ;;
  end_responses <- gather (fetch_with_retry G end_api <$> end_params_list) ;;
  for_each end_responses (fun end_response =>
    results_put (base_url end_api) end_response ;;;
    callback).

(** [process_linkage], the closure of [run_flow]. *)
Definition process_linkage (G : Getter) (l : linkage) (params : pdict)
    : M (dict value) :=
  match l with
  | APILinkage start_api end_api linkage_function =>
      start_response <- fetch_with_retry G start_api params ;;
      results_put (base_url start_api) start_response ;;;
      outputs_v <- lift (subscript start_response "output") ;;
      outputs <- lift (items outputs_v) ;;
      for_each outputs (fun kv =>
        for_each (as_list kv.2) (fan_out G end_api linkage_function kv.1)) ;;;
      (fun s => ret (results s) s)
  | PythonLinkage function =>
      transformed_results <- (fun s => lift (function (results s)) s) ;;
      (fun s => results_set (PyDict.update (results s) transformed_results) s) ;;;
      callback ;;;
      (fun s => ret (results s) s)
  end.

(** [Getter.run_flow] (and [Getter.run], which only wraps it in
    [asyncio.run]). *)
Definition run_flow (G : Getter) (flow : APIFlow) (start_params : pdict)
    : M unit :=
  results_set [] ;;;
  gather ((fun l => process_linkage G l start_params) <$> linkages flow) ;;;
  ret tt.

Definition run := run_flow.

End Getter.

(** ** Reading traces *)

(** The events of one fetch attempt, as opposed to the events of the flow
    engine (calls of [fetch_with_retry], of the linkage function and of the
    callback). *)
Definition is_network_event (e : event) : bool :=
  match e with
  | EvLookup _ _ | EvRequest _ | EvHandler _ | EvLog _ | EvSleep _ => true
  | EvCall _ _ | EvLinkage _ | EvCallback _ => false
  end.

Definition requests_of (evs : list event) : list Request :=
  omap (fun e => match e with EvRequest rq => Some rq | _ => None end) evs.

Definition sleeps_of (evs : list event) : list Z :=
  omap (fun e => match e with EvSleep n => Some n | _ => None end) evs.

Definition fetch_calls_of (evs : list event) : list (string * pdict) :=
  omap (fun e => match e with EvCall u p => Some (u, p) | _ => None end) evs.

Definition linkage_calls_of (evs : list event) : list (dict value) :=
  omap (fun e => match e with EvLinkage d => Some d | _ => None end) evs.

Definition callbacks_of (evs : list event) : list (dict value) :=
  omap (fun e => match e with EvCallback r => Some r | _ => None end) evs.

(** What one failed and retried attempt number [retry] leaves in the trace. *)
Definition retried_attempt (api : API) (params : pdict) (rq : Request)
    (st : Z) (retry : nat) : list event :=
  [EvLookup (cache_key api params) false;
   EvRequest rq;
   EvLog (LogRetry (base_url api) st);
   EvSleep (2 ^ Z.of_nat retry)].

(** Attempts [from], [from + 1], ..., [from + k - 1], all failed with a
    [ClientResponseError] whose status is given by [st]. *)
Definition retried_attempts (api : API) (params : pdict) (rq : Request)
    (st : nat -> Z) (from k : nat) : list event :=
  flat_map (fun i => retried_attempt api params rq (st i) i) (seq from k).

(** The state after [k] retried attempts. *)
Definition after_retries (api : API) (params : pdict) (rq : Request)
    (st : nat -> Z) (from k : nat) (s : state) : state :=
  mkState (cache s) (semaphore s) (requests_made s + k)
          (trace s ++ retried_attempts api params rq st from k) (results s).

(** A computation preserves a relation between the state it starts in and
    the state it leaves, whatever its outcome. *)
Definition preserves (R : relation state) {A} (m : M A) : Prop :=
  forall s o s', m s = (o, s') -> R s s'.

(** The cache only grows: an entry, once stored, stays as it is. *)
Definition cache_grows (s s' : state) : Prop := cache s ⊆ cache s'.

(** The footprint of a fetch attempt: it leaves semaphore and accumulator
    alone, grows the cache, and appends fetch-level events to the trace,
    among them one [EvRequest] per request counted. *)
Definition attempt_step (s s' : state) : Prop :=
  semaphore s' = semaphore s /\
  results s' = results s /\
  cache s ⊆ cache s' /\
  exists evs, trace s' = trace s ++ evs /\
              forallb is_network_event evs = true /\
              requests_made s' = requests_made s + length (requests_of evs).

(** The values a declared path matches in a document; nothing when the
    path expression does not parse. *)
Definition matches (E : Env) (jsonpath_expr : string) (response_json : value)
    : list value :=
  match jsonpath E jsonpath_expr with
  | inr find => find response_json
  | inl _ => []
  end.

(** A caller issuing fetches one after the other, each one in its own
    [try]: the outcomes in call order, and the state left behind. *)
Fixpoint fetch_calls (E : Env) (calls : list (API * pdict)) (s : state)
    : list (outcome value) * state :=
  match calls with
  | [] => ([], s)
  | (api, params) :: calls' =>
      let '(o, s1) := fetch E api params s in
      let '(os, s2) := fetch_calls E calls' s1 in
      (o :: os, s2)
  end.

Definition is_Raise {A} (o : outcome A) : bool :=
  match o with Raise _ => true | _ => false end.

(** The fetch of [api] with [params] raises nothing but a
    [ClientResponseError], in whatever state it is made. *)
Definition retryable_on (E : Env) (api : API) (params : pdict) : Prop :=
  forall s e s',
    fetch E api params s = (Raise e, s') -> exists st, e = ClientResponseError st.

(** [result['output'][name]] *)
Definition output_field (result : value) (name : string) : exn + value :=
  match subscript result "output" with
  | inr output => subscript output name
  | inl e => inl e
  end.


(** The singleton maps a linkage step hands to its linkage function, in
    the order in which it does: field by field, and for each field value
    by value, a value that is not a list counting as a list of one. *)
Definition singletons (outputs : dict value) : list (dict value) :=
  flat_map (fun kv => (fun v => [(kv.1, v)]) <$> as_list kv.2) outputs.

(** The parameter maps a linkage function returns, none when it raises. *)
Definition params_of (linkage_function : dict value -> exn + list pdict)
    (output_data : dict value) : list pdict :=
  match linkage_function output_data with
  | inr end_params_list => end_params_list
  | inl _ => []
  end.

(** A stretch of a linkage step, read off the trace: the permits are as
    before, and the events added show the calls of the linkage function
    [ds], the calls of [fetch_with_retry] [calls], and [ncb] calls of the
    callback. *)
Definition engine_step (s s' : state) (ds : list (dict value))
    (calls : list (string * pdict)) (ncb : nat) : Prop :=
  semaphore s' = semaphore s /\
  exists evs, trace s' = trace s ++ evs /\
              linkage_calls_of evs = ds /\
              fetch_calls_of evs = calls /\
              length (callbacks_of evs) = ncb.

(** ** Sample endpoints and worlds *)

Definition xkcd_api : API :=
  API_init "https://xkcd.com/{id}/info.0.json" None
    (Some {[ "id" := URLParam ]})
    (Some [("title", "$.safe_title")])
    None
    (Some {[ 404%Z := fun _ => inr (VDict [("title", VList [VStr "No title found"])]) ]})
    None.

Definition dictionary_api : API :=
  API_init "https://api.dictionaryapi.dev/api/v2/entries/en/{word}" None
    (Some {[ "word" := URLParam ]})
    (Some [("definition", "$..meanings[*].definitions[*].definition")])
    None
    (Some {[ 404%Z := fun _ => inr (VDict [("title", VList [VStr "No definition found"])]) ]})
    None.

Definition map_inr {A B} (f : A -> B) (r : exn + A) : exn + B :=
  match r with
  | inl e => inl e
  | inr a => inr (f a)
  end.

(** [str.format] applied to [template] with the keyword arguments [kw],
    for templates whose replacement fields are plain names: [{name}] is
    replaced by [kw[name]], and a name that [kw] lacks raises [KeyError];
    [{{] and [}}] stand for one brace; a field left open and a lone [}]
    raise [ValueError]; the empty field [{}] asks for a positional
    argument, of which [build_url] passes none.  [field] is the name read
    so far inside a replacement field.  Conversions, format
    specifications, attribute and index lookups inside a field are not
    covered. *)
Fixpoint format_names (template : string) (field : option string)
    (kw : pdict) : exn + string :=
  match template, field with
  | EmptyString, None => inr EmptyString
  | EmptyString, Some _ =>
      inl (ValueError "expected '}' before end of string")
  | String c rest, None =>
      if Ascii.eqb c "{"%char then
        match rest with
        | String "{"%char rest' =>
            map_inr (String "{"%char) (format_names rest' None kw)
        | _ => format_names rest (Some EmptyString) kw
        end
      else if Ascii.eqb c "}"%char then
        match rest with
        | String "}"%char rest' =>
            map_inr (String "}"%char) (format_names rest' None kw)
        | _ => inl (ValueError "Single '}' encountered in format string")
        end
      else map_inr (String c) (format_names rest None kw)
  | String c rest, Some name =>
      if Ascii.eqb c "}"%char then
        if decide (name = EmptyString) then inl (OtherError "IndexError")
        else
          match PyDict.get kw name with
          | Some v => map_inr (String.append v) (format_names rest None kw)
          | None => inl (KeyError name)
          end
      else format_names rest (Some (String.append name (String c EmptyString))) kw
  end.

Definition sample_format (template : string) (kw : pdict) : exn + string :=
  format_names template None kw.

(** Path expressions of the form [$] followed by steps [.name], [..name]
    and [[*]], evaluated as [jsonpath_ng] does: a field step on a
    dictionary gives the value under that key as one match, a list
    included, and nothing elsewhere; a descendant step looks for the
    field in the datum and then in its children, elements of a list and
    values of a dictionary in their order; the wildcard gives the
    elements of a list, nothing on a falsy datum, and a dictionary,
    number or string as the one match.  Whether a key that holds [null]
    is a match depends on the version of the library: it is one here, and
    the sample documents hold none.  Expressions outside this fragment
    are not covered: this evaluator takes them for malformed. *)
Inductive path_step : Type :=
| Field (name : string)
| Descend (name : string)
| Wildcard.

Definition find_field (name : string) (datum : value) : list value :=
  match datum with
  | VDict d => option_list (PyDict.get d name)
  | _ => []
  end.

Fixpoint find_descendants (name : string) (datum : value) : list value :=
  find_field name datum ++
  match datum with
  | VList vs => flat_map (find_descendants name) vs
  | VDict d => flat_map (fun kv => find_descendants name kv.2) d
  | _ => []
  end.

Definition find_wildcard (datum : value) : list value :=
  match datum with
  | VList vs => vs
  | VNone | VBool false | VInt 0 | VStr EmptyString | VDict [] => []
  | _ => [datum]
  end.

Definition step_find (step : path_step) (datum : value) : list value :=
  match step with
  | Field name => find_field name datum
  | Descend name => find_descendants name datum
  | Wildcard => find_wildcard datum
  end.

Definition path_find (steps : list path_step) (doc : value) : list value :=
  fold_left (fun found step => flat_map (step_find step) found) steps [doc].

Inductive parse_state : Type :=
| AtStep
| AfterDot
| InName (deep : bool) (name : string)
| AfterBracket
| AfterStar.

Definition name_char (c : ascii) : bool :=
  let n := nat_of_ascii c in
  (Nat.leb 97 n && Nat.leb n 122) || (Nat.leb 65 n && Nat.leb n 90)
  || (Nat.leb 48 n && Nat.leb n 57) || Nat.eqb n 95.

Definition named_step (deep : bool) (name : string) : path_step :=
  if deep then Descend name else Field name.

Fixpoint parse_steps (text : string) (st : parse_state)
    : option (list path_step) :=
  match text with
  | EmptyString =>
      match st with
      | AtStep => Some []
      | InName deep name =>
          if decide (name = EmptyString) then None
          else Some [named_step deep name]
      | _ => None
      end
  | String c rest =>
      match st with
      | AtStep =>
          if Ascii.eqb c "."%char then parse_steps rest AfterDot
          else if Ascii.eqb c "["%char then parse_steps rest AfterBracket
          else None
      | AfterDot =>
          if Ascii.eqb c "."%char then parse_steps rest (InName true EmptyString)
          else if name_char c
               then parse_steps rest (InName false (String c EmptyString))
          else None
      | InName deep name =>
          if name_char c
          then parse_steps rest (InName deep (String.append name (String c EmptyString)))
          else if decide (name = EmptyString) then None
          else
            cons (named_step deep name) <$>
              (if Ascii.eqb c "."%char then parse_steps rest AfterDot
               else if Ascii.eqb c "["%char then parse_steps rest AfterBracket
               else None)
      | AfterBracket =>
          if Ascii.eqb c "*"%char then parse_steps rest AfterStar else None
      | AfterStar =>
          if Ascii.eqb c "]"%char then cons Wildcard <$> parse_steps rest AtStep
          else None
      end
  end.

Definition sample_jsonpath (expr : string) : exn + (value -> list value) :=
  match expr with
  | String "$"%char steps =>
      match parse_steps steps AtStep with
      | Some steps => inr (path_find steps)
      | None => inl (OtherError "JsonPathParserError")
      end
  | _ => inl (OtherError "JsonPathParserError")
  end.

(** [str.lower] and [str.split] without arguments, on ASCII strings. *)
Definition lower_char (c : ascii) : ascii :=
  let n := nat_of_ascii c in
  if Nat.leb 65 n && Nat.leb n 90 then ascii_of_nat (n + 32) else c.

Fixpoint str_lower (s : string) : string :=
  match s with
  | EmptyString => EmptyString
  | String c rest => String (lower_char c) (str_lower rest)
  end.

Definition is_space (c : ascii) : bool :=
  let n := nat_of_ascii c in
  (Nat.leb 9 n && Nat.leb n 13) || (Nat.leb 28 n && Nat.leb n 32).

Fixpoint split_words (s word : string) : list string :=
  match s with
  | EmptyString => if decide (word = EmptyString) then [] else [word]
  | String c rest =>
      if is_space c
      then if decide (word = EmptyString) then split_words rest EmptyString
           else word :: split_words rest EmptyString
      else split_words rest (String.append word (String c EmptyString))
  end.

Definition str_split (s : string) : list string := split_words s EmptyString.

(** An endpoint like [xkcd_api] whose handler for 404 offers two titles. *)
Definition titles_api : API :=
  API_init "https://xkcd.com/{id}/info.0.json" None
    (Some {[ "id" := URLParam ]})
    (Some [("title", "$.safe_title")])
    None
    (Some {[ 404%Z := fun _ =>
               inr (VDict [("title", VList [VStr "some"; VStr "words"])]) ]})
    None.


(** Worlds: one that answers every request with the same response, one
    that fails every request with the same exception. *)
Definition answering (response : Response) : Env :=
  mkEnv sample_format sample_jsonpath (fun _ _ => inr response).

Definition failing (e : exn) : Env :=
  mkEnv sample_format sample_jsonpath (fun _ _ => inl e).

(** A world that fails the first [k] requests with a
    [ClientResponseError] and answers from then on. *)
Definition flaky (k : nat) (st : Z) (response : Response) : Env :=
  mkEnv sample_format sample_jsonpath
    (fun n _ => if decide (n < k) then inl (ClientResponseError st)
                else inr response).

Definition fresh (workers : Z) : state := mkState ∅ workers 0 [] [].

(** The URL of comic 2630, and of the entry of a word. *)
Definition comic_url : string := "https://xkcd.com/2630/info.0.json".

Definition entry_url (word : string) : string :=
  String.append "https://api.dictionaryapi.dev/api/v2/entries/en/" word.

Definition comic : Response :=
  mkResponse 200 (inr (VDict [("safe_title", VStr "Some Words")])).

Definition no_title : Response :=
  mkResponse 200 (inr (VDict [("num", VInt 1)])).

Definition not_found : Response := mkResponse 404 (inr VNone).


(** The identity-wrapping linkage function: the one value it is given
    becomes the one parameter of the one downstream call. *)
Definition wrap_word (output_data : dict value) : exn + list pdict :=
  match output_data with
  | [(_, VStr w)] => inr [[("word", w)]]
  | [(_, VNone)] => inr [[("word", "")]]
  | _ => inl (AttributeError "split")
  end.

Definition keep_comic (rs : dict value) : exn + dict value :=
  inr [("comic", default VNone (PyDict.get rs (base_url xkcd_api)))].

(** ** The demo flow *)

(** [flowlib-demo.py], [xkcd_to_dictionary]: the first word of the title,
    in lower case, as the one parameter of the one dictionary lookup.
    [str.split] and [str.lower] are Python's; a title that is not a string
    has no [split]. *)
Definition xkcd_to_dictionary (split : string -> list string)
    (lower : string -> string) (xkcd_response : dict value)
    : exn + list pdict :=
  match default (VStr "") (PyDict.get xkcd_response "title") with
  | VStr title =>
      let words := split title in
      let first_word := match words with w :: _ => lower w | [] => "" end in
      inr [[("word", first_word)]]
  | _ => inl (AttributeError "split")
  end.

(** [flowlib-demo.py], [flow] *)
Definition demo_flow (split : string -> list string)
    (lower : string -> string) : APIFlow :=
  mkAPIFlow [APILinkage xkcd_api dictionary_api (xkcd_to_dictionary split lower)].

(** ** More vocabulary *)

(** The parameters an endpoint declares, whatever their kind. *)
Definition declared (api : API) (kv : string * string) : bool :=
  bool_decide (is_Some (input_params api !! kv.1)).

(** The world fails request number [n] in one of the two ways the retry
    loop catches: [session.request] raises a [ClientResponseError], or it
    hands back a 200 response whose [json()] raises one. *)
Definition failed_with (E : Env) (n : nat) (rq : Request) (st : Z) : Prop :=
  session_request E n rq = inl (ClientResponseError st)
  \/ exists response,
       session_request E n rq = inr response
       /\ status response = 200%Z
       /\ json response = inl (ClientResponseError st).

(** What one entry of a template becomes in [populate_template]. *)
Definition populate_entry (params : dict value) (kv : string * value)
    : string * value :=
  (kv.1, match kv.2 with
         | VDict sub => VDict (populate_template sub params)
         | v => default v (PyDict.get params kv.1)
         end).

Definition is_dict (v : value) : bool :=
  match v with VDict _ => true | _ => false end.

(** The accumulators that a list of transform functions produces, one
    after the other, from a given accumulator; the exception of the first
    function that raises. *)
Fixpoint apply_transforms (fs : list (dict value -> exn + dict value))
    (acc : dict value) : exn + list (dict value) :=
  match fs with
  | [] => inr []
  | f :: fs' =>
      match f acc with
      | inl e => inl e
      | inr delta =>
          let acc' := PyDict.update acc delta in
          match apply_transforms fs' acc' with
          | inl e => inl e
          | inr accs => inr (acc' :: accs)
          end
      end
  end.

(** The accumulator entries outside [keys] are the same in both states. *)
Definition writes_only (keys : list string) (s s' : state) : Prop :=
  forall k, k ∉ keys -> PyDict.get (results s') k = PyDict.get (results s) k.

Definition sum_Z (l : list Z) : Z := foldr Z.add 0%Z l.

(** * Properties *)

(** ** Dictionaries *)

Lemma dict_get_set_eq {V} (d : dict V) k v :
  PyDict.get (PyDict.set d k v) k = Some v.
Proof.
  induction d as [|[k' v'] d IH]; simpl.
  - by rewrite decide_True.
  - destruct (decide (k' = k)) as [->|Hne]; simpl.
    + by rewrite decide_True.
    + by rewrite decide_False.
Qed.

Lemma dict_get_set_ne {V} (d : dict V) k k' v :
  k ≠ k' -> PyDict.get (PyDict.set d k v) k' = PyDict.get d k'.
Proof.
  intros Hne. induction d as [|[k0 v0] d IH]; simpl.
  - by rewrite decide_False.
  - destruct (decide (k0 = k)) as [->|Hne0]; simpl.
    + by rewrite !decide_False.
    + by rewrite IH.
Qed.

Lemma dict_get_Some_keys {V} (d : dict V) k v :
  PyDict.get d k = Some v -> k ∈ PyDict.keys d.
Proof.
  induction d as [|[k' v'] d IH]; simpl; [done|].
  destruct (decide (k' = k)) as [->|Hne]; intros H.
  - apply list_elem_of_here.
  - apply list_elem_of_further. by apply IH.
Qed.

Lemma dict_get_None_keys {V} (d : dict V) k :
  PyDict.get d k = None <-> k ∉ PyDict.keys d.
Proof.
  induction d as [|[k' v'] d IH]; simpl.
  - split; [intros _; apply not_elem_of_nil | done].
  - rewrite not_elem_of_cons. destruct (decide (k' = k)) as [->|Hne].
    + split; [done | by intros [? _]].
    + rewrite IH. split; [by intros ? | by intros [_ ?]].
Qed.

Lemma dict_keys_set {V} (d : dict V) k v :
  PyDict.keys (PyDict.set d k v)
  = if decide (k ∈ PyDict.keys d) then PyDict.keys d else PyDict.keys d ++ [k].
Proof.
  unfold PyDict.keys. induction d as [|[k' v'] d IH].
  - simpl. destruct (decide (k ∈ [])) as [Hin|_]; [|done].
    by apply elem_of_nil in Hin.
  - cbn [PyDict.set]. destruct (decide (k' = k)) as [->|Hne].
    + rewrite decide_True; [done | apply list_elem_of_here].
    + rewrite !fmap_cons, IH. cbn [fst].
      destruct (decide (k ∈ d.*1)) as [Hin|Hnin].
      * rewrite decide_True; [done | by apply list_elem_of_further].
      * rewrite decide_False; [done|].
        rewrite not_elem_of_cons. by split.
Qed.

Lemma dict_set_NoDup {V} (d : dict V) k v :
  NoDup (PyDict.keys d) -> NoDup (PyDict.keys (PyDict.set d k v)).
Proof.
  intros Hnd. rewrite dict_keys_set. case_decide; [done|].
  apply NoDup_app. split; [done|]. split; [|apply NoDup_singleton].
  intros x Hx Hx'. apply list_elem_of_singleton in Hx'. by subst.
Qed.

Lemma dict_get_update_notin {V} (delta d : dict V) k :
  k ∉ PyDict.keys delta ->
  PyDict.get (PyDict.update d delta) k = PyDict.get d k.
Proof.
  revert d. induction delta as [|[k0 v0] delta IH]; intros d Hk; [done|].
  simpl in Hk. apply not_elem_of_cons in Hk as [Hne Hk].
  unfold PyDict.update in *. simpl. rewrite IH by done.
  by apply dict_get_set_ne.
Qed.

Lemma dict_get_update_in {V} (delta d : dict V) k v :
  NoDup (PyDict.keys delta) ->
  PyDict.get delta k = Some v ->
  PyDict.get (PyDict.update d delta) k = Some v.
Proof.
  revert d. induction delta as [|[k0 v0] delta IH]; intros d Hnd Hget; [done|].
  simpl in Hnd, Hget. apply NoDup_cons in Hnd as [Hk0 Hnd].
  change (PyDict.update d ((k0, v0) :: delta))
    with (PyDict.update (PyDict.set d k0 v0) delta).
  destruct (decide (k0 = k)) as [->|Hne].
  - injection Hget as ->.
    rewrite dict_get_update_notin by done. apply dict_get_set_eq.
  - by apply IH.
Qed.

Lemma dict_keys_update_prefix {V} (delta d : dict V) :
  PyDict.keys d `prefix_of` PyDict.keys (PyDict.update d delta).
Proof.
  revert d. induction delta as [|[k0 v0] delta IH]; intros d; [done|].
  change (PyDict.update d ((k0, v0) :: delta))
    with (PyDict.update (PyDict.set d k0 v0) delta).
  etrans; [|apply IH]. rewrite dict_keys_set. case_decide; [done|].
  by apply prefix_app_r.
Qed.

(** ** The transform step *)

(** C7. A [PythonLinkage] step applies its function to the accumulator,
    merges the returned delta into it (a key of the delta is overwritten or
    added, every other key keeps its value, and the keys already there keep
    their place), and calls the callback once, with the merged accumulator;
    the step touches nothing else. *)
Theorem process_linkage_PythonLinkage_merges
    (E : Env) (G : Getter) (function : dict value -> exn + dict value)
    (params : pdict) (s : state) (delta : dict value) :
  function (results s) = inr delta ->
  NoDup (PyDict.keys delta) ->
  let merged := PyDict.update (results s) delta in
  process_linkage E G (PythonLinkage function) params s
    = (Return merged,
       mkState (cache s) (semaphore s) (requests_made s)
               (trace s ++ [EvCallback merged]) merged)
  /\ (forall k v, PyDict.get delta k = Some v -> PyDict.get merged k = Some v)
  /\ (forall k, k ∉ PyDict.keys delta ->
                PyDict.get merged k = PyDict.get (results s) k)
  /\ PyDict.keys (results s) `prefix_of` PyDict.keys merged.
Proof.
  intros Hf Hnd merged. split_and!.
  - unfold process_linkage, bind, lift, results_set, callback, emit, ret.
    simpl. by rewrite Hf.
  - intros k v Hk. by apply dict_get_update_in.
  - intros k Hk. by apply dict_get_update_notin.
  - apply dict_keys_update_prefix.
Qed.

Lemma process_linkage_PythonLinkage_merges_witness :
  process_linkage (answering comic) (mkGetter 3 10) (PythonLinkage keep_comic)
    [("id", "2630")] (fresh 10)
  = (Return [("comic", VNone)],
     mkState ∅ 10 0 [EvCallback [("comic", VNone)]] [("comic", VNone)]).
Proof.
  refine (proj1 (process_linkage_PythonLinkage_merges (answering comic)
            (mkGetter 3 10) keep_comic [("id", "2630")] (fresh 10)
            [("comic", VNone)] _ _)).
  - reflexivity.
  - simpl. apply NoDup_singleton.
Defined.

(** ** No retries at all *)

(** C8. With [max_retries = 0] a call of [fetch_with_retry] returns [{}]
    and does nothing but log that it gave up: the cache is not consulted,
    no request leaves, no error handler runs, and cache, semaphore and
    accumulator are as before. *)
Theorem fetch_with_retry_zero_retries
    (E : Env) (G : Getter) (api : API) (params : pdict) (s : state) :
  max_retries G = 0%Z ->
  (0 < semaphore s)%Z ->
  fetch_with_retry E G api params s
  = (Return (VDict []),
     mkState (cache s) (semaphore s) (requests_made s)
             (trace s ++ [EvCall (base_url api) params;
                          EvLog (LogGiveUp 0 (base_url api))])
             (results s)).
Proof.
  intros Hmr Hsem.
  unfold fetch_with_retry, with_semaphore, bind, emit, set_semaphore. simpl.
  rewrite decide_False by lia. rewrite Hmr. simpl.
  unfold bind, emit, ret. simpl.
  rewrite <- app_assoc, Z.sub_add, ?Hmr. reflexivity.
Qed.

Lemma fetch_with_retry_zero_retries_witness :
  fetch_with_retry (answering comic) (mkGetter 0 10) xkcd_api [("id", "2630")]
    (fresh 10)
  = (Return (VDict []),
     mkState ∅ 10 0
       [EvCall (base_url xkcd_api) [("id", "2630")];
        EvLog (LogGiveUp 0 (base_url xkcd_api))] []).
Proof.
  apply (fetch_with_retry_zero_retries (answering comic) (mkGetter 0 10)
           xkcd_api [("id", "2630")] (fresh 10)).
  - reflexivity.
  - simpl. lia.
Defined.

(** ** One fetch attempt *)

Lemma requests_of_app evs1 evs2 :
  requests_of (evs1 ++ evs2) = requests_of evs1 ++ requests_of evs2.
Proof. apply omap_app. Qed.

Lemma sleeps_of_app evs1 evs2 :
  sleeps_of (evs1 ++ evs2) = sleeps_of evs1 ++ sleeps_of evs2.
Proof. apply omap_app. Qed.

Lemma fetch_calls_of_app evs1 evs2 :
  fetch_calls_of (evs1 ++ evs2) = fetch_calls_of evs1 ++ fetch_calls_of evs2.
Proof. apply omap_app. Qed.

Lemma linkage_calls_of_app evs1 evs2 :
  linkage_calls_of (evs1 ++ evs2)
  = linkage_calls_of evs1 ++ linkage_calls_of evs2.
Proof. apply omap_app. Qed.

Lemma callbacks_of_app evs1 evs2 :
  callbacks_of (evs1 ++ evs2) = callbacks_of evs1 ++ callbacks_of evs2.
Proof. apply omap_app. Qed.

#[global] Instance attempt_step_preorder : PreOrder attempt_step.
Proof.
  split.
  - intros s. repeat split; [done|]. exists []. by rewrite app_nil_r, Nat.add_0_r.
  - intros s1 s2 s3 (Hs & Hr & Hc & evs & Ht & Hn & Hq)
      (Hs' & Hr' & Hc' & evs' & Ht' & Hn' & Hq').
    repeat split; [congruence | congruence | by etrans |].
    exists (evs ++ evs'). split_and!.
    + by rewrite Ht', Ht, app_assoc.
    + by rewrite forallb_app, Hn, Hn'.
    + rewrite requests_of_app, length_app. lia.
Qed.

#[global] Instance cache_grows_preorder : PreOrder cache_grows.
Proof.
  split; [intros s; by unfold cache_grows|].
  intros s1 s2 s3 H1 H2. unfold cache_grows in *. by etrans.
Qed.

(** A cache hit: the stored result comes back and nothing else happens. *)
Lemma fetch_hit (E : Env) api params s r :
  cache s !! cache_key api params = Some r ->
  fetch E api params s
  = (Return r,
     mkState (cache s) (semaphore s) (requests_made s)
             (trace s ++ [EvLookup (cache_key api params) true]) (results s)).
Proof. intros Hhit. unfold fetch. by rewrite Hhit. Qed.

(** A cache miss: the request is built and sent; what follows depends on
    how the world answers. *)
Lemma fetch_miss (E : Env) api params s url :
  cache s !! cache_key api params = None ->
  build_url E api (List.filter (has_kind api URLParam) params) = inr url ->
  let key := cache_key api params in
  let rq := build_request api params url in
  let sent := mkState (cache s) (semaphore s) (S (requests_made s))
                (trace s ++ [EvLookup key false; EvRequest rq]) (results s) in
  let stored outputs evs :=
    (Return (fetch_result params outputs),
     mkState (<[key := fetch_result params outputs]> (cache s)) (semaphore s)
             (S (requests_made s))
             (trace s ++ [EvLookup key false; EvRequest rq] ++ evs)
             (results s)) in
  fetch E api params s =
    match session_request E (requests_made s) rq with
    | inl e => (Raise e, sent)
    | inr response =>
        if decide (status response = 200%Z) then
          match json response with
          | inl e => (Raise e, sent)
          | inr response_json =>
              match extract E (output_params api) response_json [] with
              | inl e => (Raise e, sent)
              | inr outputs => stored (VDict outputs) []
              end
          end
        else
          match error_handlers api !! status response with
          | Some error_handler =>
              match error_handler response with
              | inl e =>
                  (Raise e,
                   mkState (cache s) (semaphore s) (S (requests_made s))
                     (trace s ++ [EvLookup key false; EvRequest rq;
                                  EvHandler (status response)]) (results s))
              | inr outputs => stored outputs [EvHandler (status response)]
              end
          | None =>
              stored (VDict []) [EvLog (LogStatus url (status response))]
          end
    end.
Proof.
  intros Hmiss Hurl key rq sent stored.
  unfold fetch. rewrite Hmiss.
  unfold bind, emit, lift, request, cache_put, ret. simpl.
  rewrite Hurl. simpl. fold key rq.
  destruct (session_request E (requests_made s) rq) as [e|response]; simpl.
  { subst sent. by rewrite <- app_assoc. }
  destruct (decide (status response = 200%Z)) as [H200|Hne]; simpl.
  - destruct (json response) as [e|response_json]; simpl.
    { subst sent. by rewrite <- app_assoc. }
    destruct (extract E (output_params api) response_json []) as [e|outputs];
      simpl; subst sent stored; simpl; by rewrite <- app_assoc.
  - destruct (error_handlers api !! status response) as [h|]; simpl.
    + destruct (h response) as [e|outputs]; simpl; subst stored; simpl;
        by rewrite <- !app_assoc.
    + subst stored; simpl; by rewrite <- !app_assoc.
Qed.

(** What a fetch attempt does to the state, whatever its outcome: it never
    waits for a permit, issues one request at most, and stores its result
    when, and only when, it returns one. *)
Lemma fetch_footprint (E : Env) api params s o s' :
  fetch E api params s = (o, s') ->
  attempt_step s s' /\
  o <> Hang /\
  requests_made s' <= S (requests_made s) /\
  (forall r, o = Return r -> cache s' !! cache_key api params = Some r) /\
  (forall e, o = Raise e -> cache s' = cache s).
Proof.
  intros Hf.
  destruct (cache s !! cache_key api params) as [r|] eqn:Hc.
  { rewrite (fetch_hit E _ _ _ _ Hc) in Hf. simplify_eq. split_and!; try done.
    - repeat split; simpl; [done|]. eexists. split_and!; [done..|simpl; lia].
    - simpl. lia.
    - intros ? [= <-]. done. }
  destruct (build_url E api (List.filter (has_kind api URLParam) params))
    as [e|url] eqn:Hurl.
  { unfold fetch in Hf. rewrite Hc in Hf.
    unfold bind, emit, lift in Hf. simpl in Hf. rewrite Hurl in Hf.
    simplify_eq. split_and!; try done; simpl; [|lia].
    repeat split; simpl; [done|]. eexists. split_and!; [done..|simpl; lia]. }
  rewrite (fetch_miss E _ _ _ _ Hc Hurl) in Hf.
  assert (Hsub : forall v, cache s ⊆ <[cache_key api params := v]> (cache s))
    by (intros v; by apply insert_subseteq).
  repeat case_match; simplify_eq; simpl;
    (split_and!;
     [ repeat split; simpl; [done..|]; eexists; split_and!; [done..|simpl; lia]
     | done | lia
     | try done; intros ? [= <-]; apply lookup_insert_eq
     | done ]).
Qed.

(** ** The retry loop *)

Lemma attempt_step_events s evs :
  forallb is_network_event evs = true ->
  requests_of evs = [] ->
  attempt_step s (mkState (cache s) (semaphore s) (requests_made s)
                          (trace s ++ evs) (results s)).
Proof.
  intros Hn Hq. repeat split; simpl; [done|].
  exists evs. rewrite Hq. split_and!; [done..|simpl; lia].
Qed.

Lemma retry_loop_nil (E : Env) G api params s :
  retry_loop E G api params [] s
  = (Return (VDict []),
     mkState (cache s) (semaphore s) (requests_made s)
             (trace s ++ [EvLog (LogGiveUp (max_retries G) (base_url api))])
             (results s)).
Proof. reflexivity. Qed.

Lemma retry_loop_return (E : Env) G api params retry retries s r s1 :
  fetch E api params s = (Return r, s1) ->
  retry_loop E G api params (retry :: retries) s = (Return r, s1).
Proof. intros Hf. simpl. by rewrite Hf. Qed.

Lemma retry_loop_raise (E : Env) G api params retry retries s e s1 :
  fetch E api params s = (Raise e, s1) ->
  (forall st, e <> ClientResponseError st) ->
  retry_loop E G api params (retry :: retries) s = (Raise e, s1).
Proof.
  intros Hf Hne. simpl. rewrite Hf.
  destruct e as [st| | | | | |]; try done. by destruct (Hne st).
Qed.

Lemma retry_loop_retry (E : Env) G api params retry retries s st s1 :
  fetch E api params s = (Raise (ClientResponseError st), s1) ->
  retry_loop E G api params (retry :: retries) s
  = retry_loop E G api params retries
      (mkState (cache s1) (semaphore s1) (requests_made s1)
               (trace s1 ++ [EvLog (LogRetry (base_url api) st);
                             EvSleep (2 ^ retry)])
               (results s1)).
Proof.
  intros Hf. simpl. rewrite Hf. unfold bind, emit. simpl.
  by rewrite <- app_assoc.
Qed.

(** The loop never waits for a permit and has the footprint of a fetch
    attempt. *)
Lemma retry_loop_footprint (E : Env) G api params retries s o s' :
  retry_loop E G api params retries s = (o, s') ->
  attempt_step s s' /\ o <> Hang.
Proof.
  revert s. induction retries as [|retry retries IH]; intros s Hl.
  - rewrite retry_loop_nil in Hl. simplify_eq. split; [|done].
    by apply attempt_step_events.
  - destruct (fetch E api params s) as [o1 s1] eqn:Hf.
    pose proof (fetch_footprint _ _ _ _ _ _ Hf) as (Hstep & Hhang & _).
    destruct o1 as [r|e|]; [| |done].
    + rewrite (retry_loop_return _ _ _ _ _ _ _ _ _ Hf) in Hl. by simplify_eq.
    + destruct e as [st| | | | | |];
        try (rewrite (retry_loop_raise _ _ _ _ _ _ _ _ _ Hf) in Hl by done;
             by simplify_eq).
      rewrite (retry_loop_retry _ _ _ _ _ _ _ _ _ Hf) in Hl.
      apply IH in Hl as [Hl ?]. split; [|done].
      etrans; [exact Hstep|]. etrans; [|exact Hl].
      by apply attempt_step_events.
Qed.

(** When no attempt with these parameters can fail with anything but a
    [ClientResponseError], the loop returns. *)
Lemma retry_loop_returns (E : Env) G api params retries s :
  retryable_on E api params ->
  exists r s', retry_loop E G api params retries s = (Return r, s').
Proof.
  intros Hok. revert s. induction retries as [|retry retries IH]; intros s.
  - rewrite retry_loop_nil. eauto.
  - destruct (fetch E api params s) as [o1 s1] eqn:Hf.
    destruct o1 as [r|e|].
    + rewrite (retry_loop_return _ _ _ _ _ _ _ _ _ Hf). eauto.
    + destruct (Hok _ _ _ Hf) as [st ->].
      rewrite (retry_loop_retry _ _ _ _ _ _ _ _ _ Hf). apply IH.
    + by apply fetch_footprint in Hf as (_ & ? & _).
Qed.

(** [k] attempts in a row that the world fails with a
    [ClientResponseError]: each one looks up the cache, sends the request,
    logs the failure and sleeps [2 ^ retry]; the loop goes on with what is
    left of the range. *)
Lemma retry_loop_retried (E : Env) G api params url st k : forall from rest s,
  cache s !! cache_key api params = None ->
  build_url E api (List.filter (has_kind api URLParam) params) = inr url ->
  (forall i, i < k ->
     session_request E (requests_made s + i) (build_request api params url)
     = inl (ClientResponseError (st (from + i)))) ->
  retry_loop E G api params ((Z.of_nat <$> seq from k) ++ rest) s
  = retry_loop E G api params rest
      (after_retries api params (build_request api params url) st from k s).
Proof.
  induction k as [|k IH]; intros from rest s Hmiss Hurl Hfail.
  - simpl. f_equal. unfold after_retries, retried_attempts. simpl.
    destruct s; simpl. by rewrite app_nil_r, Nat.add_0_r.
  - pose proof (fetch_miss E _ _ _ _ Hmiss Hurl) as Hf. simpl in Hf.
    pose proof (Hfail 0 ltac:(lia)) as H0.
    rewrite !Nat.add_0_r in H0. rewrite H0 in Hf.
    cbn [seq fmap list_fmap app].
    rewrite (retry_loop_retry _ _ _ _ _ _ _ _ _ Hf). cbn [cache semaphore requests_made trace results].
    rewrite (IH (S from) rest); cbn [cache semaphore requests_made trace results].
    + f_equal. unfold after_retries, retried_attempts, retried_attempt.
      cbn [cache semaphore requests_made trace results seq flat_map].
      f_equal; [lia|]. rewrite <- !app_assoc. reflexivity.
    + done.
    + done.
    + intros i Hi. specialize (Hfail (S i) ltac:(lia)).
      by rewrite <- !Nat.add_succ_comm in Hfail.
Qed.

(** ** [fetch_with_retry] *)

Lemma fetch_with_retry_hangs (E : Env) G api params s :
  (semaphore s <= 0)%Z ->
  fetch_with_retry E G api params s
  = (Hang, mkState (cache s) (semaphore s) (requests_made s)
                   (trace s ++ [EvCall (base_url api) params]) (results s)).
Proof.
  intros Hsem. unfold fetch_with_retry, with_semaphore, bind, emit. simpl.
  by rewrite decide_True.
Qed.

(** With a permit at hand, [fetch_with_retry] is its loop, run with one
    permit less and followed by the return of the permit. *)
Lemma fetch_with_retry_run (E : Env) G api params s o s1 :
  (0 < semaphore s)%Z ->
  retry_loop E G api params (py_range (max_retries G))
    (mkState (cache s) (semaphore s - 1) (requests_made s)
             (trace s ++ [EvCall (base_url api) params]) (results s))
  = (o, s1) ->
  fetch_with_retry E G api params s
  = (o, mkState (cache s1) (semaphore s) (requests_made s1) (trace s1)
                (results s1)).
Proof.
  intros Hsem Hl.
  pose proof (retry_loop_footprint _ _ _ _ _ _ _ _ Hl) as [(Hs & _) Hhang].
  simpl in Hs.
  unfold fetch_with_retry, with_semaphore, bind, emit, set_semaphore. simpl.
  rewrite decide_False by lia. rewrite Hl.
  destruct o; [| |done]; simpl; rewrite Hs, Z.sub_add; reflexivity.
Qed.

(** The first [k] attempts fail with a [ClientResponseError]: what remains
    is the loop over the attempts from [k] on. *)
Lemma fetch_with_retry_retried (E : Env) G api params s url st k o s1 :
  (0 < semaphore s)%Z ->
  cache s !! cache_key api params = None ->
  build_url E api (List.filter (has_kind api URLParam) params) = inr url ->
  k <= Z.to_nat (max_retries G) ->
  (forall i, i < k ->
     session_request E (requests_made s + i) (build_request api params url)
     = inl (ClientResponseError (st i))) ->
  retry_loop E G api params
    (Z.of_nat <$> seq k (Z.to_nat (max_retries G) - k))
    (mkState (cache s) (semaphore s - 1) (requests_made s + k)
       (trace s ++ EvCall (base_url api) params
          :: retried_attempts api params (build_request api params url) st 0 k)
       (results s))
  = (o, s1) ->
  fetch_with_retry E G api params s
  = (o, mkState (cache s1) (semaphore s) (requests_made s1) (trace s1)
                (results s1)).
Proof.
  intros Hsem Hmiss Hurl Hk Hfail Hl.
  apply fetch_with_retry_run; [done|].
  unfold py_range.
  replace (Z.to_nat (max_retries G)) with (k + (Z.to_nat (max_retries G) - k))
    by lia.
  rewrite seq_app, fmap_app.
  rewrite (retry_loop_retried E G api params url st k 0); [|done..].
  rewrite <- Hl. f_equal. unfold after_retries. simpl.
  by rewrite <- app_assoc.
Qed.

Lemma sleeps_of_retried_attempts api params rq st from k :
  sleeps_of (retried_attempts api params rq st from k)
  = (fun i => 2 ^ Z.of_nat i)%Z <$> seq from k.
Proof.
  revert from. induction k as [|k IH]; intros from; [done|].
  unfold retried_attempts in *. simpl. by rewrite <- IH.
Qed.

Lemma requests_of_retried_attempts api params rq st from k :
  requests_of (retried_attempts api params rq st from k) = replicate k rq.
Proof.
  revert from. induction k as [|k IH]; intros from; [done|].
  unfold retried_attempts in *. simpl. by rewrite <- (IH (S from)).
Qed.

(** Every attempt the getter is allowed fails with a
    [ClientResponseError]: the call gives up and returns [{}]. *)
Lemma fetch_with_retry_exhausted (E : Env) G api params s url st :
  let rq := build_request api params url in
  let n := Z.to_nat (max_retries G) in
  (0 < semaphore s)%Z ->
  cache s !! cache_key api params = None ->
  build_url E api (List.filter (has_kind api URLParam) params) = inr url ->
  (forall i, i < n ->
     session_request E (requests_made s + i) rq
     = inl (ClientResponseError (st i))) ->
  fetch_with_retry E G api params s
  = (Return (VDict []),
     mkState (cache s) (semaphore s) (requests_made s + n)
       (trace s ++ EvCall (base_url api) params
          :: retried_attempts api params rq st 0 n
          ++ [EvLog (LogGiveUp (max_retries G) (base_url api))])
       (results s)).
Proof.
  intros rq n Hsem Hmiss Hurl Hfail.
  erewrite (fetch_with_retry_retried E G api params s url st n);
    [| done | done | done | done | done | ].
  2: { rewrite Nat.sub_diag. simpl. apply (retry_loop_nil E G api params). }
  simpl. do 2 f_equal. by rewrite <- app_assoc.
Qed.




(** ** A start fetch that runs out of attempts *)

(** C1.  When every attempt of the start fetch fails with a
    [ClientResponseError], [fetch_with_retry] returns [{}] without raising;
    [process_linkage] stores it and then subscripts it with ["output"]: the
    [KeyError] leaves [run_flow]. *)
Theorem run_flow_raises_after_exhausted_start_fetch
    (E : Env) (G : Getter) (start_api end_api : API)
    (linkage_function : dict value -> exn + list pdict)
    (params : pdict) (s : state) (url : string) (st : nat -> Z) :
  let rq := build_request start_api params url in
  let n := Z.to_nat (max_retries G) in
  let evs :=
    EvCall (base_url start_api) params
      :: retried_attempts start_api params rq st 0 n
      ++ [EvLog (LogGiveUp (max_retries G) (base_url start_api))] in
  (0 < semaphore s)%Z ->
  cache s !! cache_key start_api params = None ->
  build_url E start_api (List.filter (has_kind start_api URLParam) params)
  = inr url ->
  (forall i, i < n ->
     session_request E (requests_made s + i) rq
     = inl (ClientResponseError (st i))) ->
  fetch_with_retry E G start_api params s
  = (Return (VDict []),
     mkState (cache s) (semaphore s) (requests_made s + n) (trace s ++ evs)
             (results s))
  /\ run_flow E G
       (mkAPIFlow [APILinkage start_api end_api linkage_function]) params s
     = (Raise (KeyError "output"),
        mkState (cache s) (semaphore s) (requests_made s + n) (trace s ++ evs)
                [(base_url start_api, VDict [])]).
Proof.
  intros rq n evs Hsem Hmiss Hurl Hfail. split.
  - by apply fetch_with_retry_exhausted.
  - unfold run_flow, bind, results_set. simpl.
    unfold process_linkage, bind.
    rewrite (fetch_with_retry_exhausted E G start_api params _ url st);
      [|done..].
    reflexivity.
Qed.

Lemma run_flow_raises_after_exhausted_start_fetch_witness :
  (run_flow (failing (ClientResponseError 503)) (mkGetter 3 10)
     (mkAPIFlow [APILinkage xkcd_api dictionary_api wrap_word])
     [("id", "2630")] (fresh 10)).1
  = Raise (KeyError "output").
Proof.
  refine (f_equal fst (proj2
    (run_flow_raises_after_exhausted_start_fetch
       (failing (ClientResponseError 503)) (mkGetter 3 10)
       xkcd_api dictionary_api wrap_word [("id", "2630")] (fresh 10)
       comic_url (fun _ => 503%Z) _ _ _ _))).
  - simpl. lia.
  - reflexivity.
  - reflexivity.
  - intros i Hi. reflexivity.
Defined.

(** ** Extraction on a 200 response *)

Lemma dict_set_fresh {V} (d : dict V) k v :
  k ∉ PyDict.keys d -> PyDict.set d k v = d ++ [(k, v)].
Proof.
  unfold PyDict.keys. induction d as [|[k' v'] d IH]; intros Hk; [done|].
  rewrite fmap_cons in Hk. apply not_elem_of_cons in Hk as [Hne Hk].
  cbn [PyDict.set]. rewrite decide_False by done. by rewrite IH.
Qed.

Lemma dict_get_elem_of {V} (d : dict V) k v :
  NoDup (PyDict.keys d) -> (k, v) ∈ d -> PyDict.get d k = Some v.
Proof.
  unfold PyDict.keys. induction d as [|[k' v'] d IH]; intros Hnd Hin.
  - by apply elem_of_nil in Hin.
  - rewrite fmap_cons in Hnd. apply NoDup_cons in Hnd as [Hk' Hnd].
    apply elem_of_cons in Hin as [[= <- <-]|Hin]; simpl.
    + by rewrite decide_True.
    + rewrite decide_False; [by apply IH|].
      intros ->. apply Hk'. apply list_elem_of_fmap. by exists (k, v).
Qed.

(** With every declared path well formed, the extraction loop records the
    declared fields in declaration order, each with [matches or None]. *)
Lemma extract_fields (E : Env) response_json fields : forall outputs,
  NoDup (PyDict.keys fields) ->
  (forall k, k ∈ PyDict.keys fields -> k ∉ PyDict.keys outputs) ->
  (forall name path, (name, path) ∈ fields ->
     exists find, jsonpath E path = inr find) ->
  extract E fields response_json outputs
  = inr (outputs
         ++ ((fun kv => (kv.1, or_None (matches E kv.2 response_json)))
               <$> fields)).
Proof.
  unfold PyDict.keys.
  induction fields as [|[name path] fields IH]; intros outputs Hnd Hfresh Hwf.
  - simpl. by rewrite app_nil_r.
  - rewrite fmap_cons in Hnd. apply NoDup_cons in Hnd as [Hname Hnd].
    destruct (Hwf name path) as [find Hfind]; [apply list_elem_of_here|].
    cbn [extract]. rewrite Hfind.
    rewrite dict_set_fresh.
    2: { apply Hfresh. rewrite fmap_cons. apply list_elem_of_here. }
    rewrite IH.
    + rewrite <- app_assoc. cbn [fmap list_fmap app fst snd].
      unfold matches at 2. by rewrite Hfind.
    + done.
    + intros k Hk. unfold PyDict.keys. rewrite fmap_app.
      rewrite not_elem_of_app. split.
      * apply Hfresh. rewrite fmap_cons. by apply list_elem_of_further.
      * simpl. rewrite list_elem_of_singleton. by intros ->.
    + intros name' path' Hin. apply (Hwf name' path').
      by apply list_elem_of_further.
Qed.

(** C4.  On a 200 response with a JSON body, [fetch] returns, and stores
    in the cache, a FetchResult whose ["input"] is the parameter map and
    whose ["output"] is a map with the declared fields, in declaration
    order.  Read through the returned value, a field whose path matches
    [N >= 1] values holds the list of these [N] values, in the order in
    which the path evaluator returns them; a field whose path matches
    nothing is present and holds [None]. *)
Theorem fetch_200_records_matches
    (E : Env) (api : API) (params : pdict) (s : state) (url : string)
    (response : Response) (response_json : value) :
  let key := cache_key api params in
  let rq := build_request api params url in
  let outputs :=
    (fun kv => (kv.1, or_None (matches E kv.2 response_json)))
      <$> output_params api in
  let result := fetch_result params (VDict outputs) in
  cache s !! key = None ->
  build_url E api (List.filter (has_kind api URLParam) params) = inr url ->
  session_request E (requests_made s) rq = inr response ->
  status response = 200%Z ->
  json response = inr response_json ->
  NoDup (PyDict.keys (output_params api)) ->
  (forall name path, (name, path) ∈ output_params api ->
     exists find, jsonpath E path = inr find) ->
  fetch E api params s
  = (Return result,
     mkState (<[key := result]> (cache s))
             (semaphore s) (S (requests_made s))
             (trace s ++ [EvLookup key false; EvRequest rq]) (results s))
  /\ subscript result "input" = inr (params_value params)
  /\ subscript result "output" = inr (VDict outputs)
  /\ PyDict.keys outputs = PyDict.keys (output_params api)
  /\ (forall name path,
        (name, path) ∈ output_params api ->
        let found := matches E path response_json in
        (1 <= length found ->
           PyDict.get outputs name = Some (VList found)
           /\ output_field result name = inr (VList found))
        /\ (length found = 0 ->
           PyDict.get outputs name = Some VNone
           /\ output_field result name = inr VNone)).
Proof.
  intros key rq outputs result Hmiss Hurl Hresp H200 Hjson Hnd Hwf.
  assert (Hkeys : PyDict.keys outputs = PyDict.keys (output_params api)).
  { unfold PyDict.keys, outputs. rewrite <- list_fmap_compose.
    by apply list_fmap_ext. }
  split_and!; [|reflexivity|reflexivity|done|].
  - rewrite (fetch_miss E api params s url Hmiss Hurl). fold rq key.
    rewrite Hresp, decide_True, Hjson by done.
    rewrite extract_fields; [|done| |done].
    + do 2 f_equal.
    + intros k _. apply not_elem_of_nil.
  - intros name path Hin found.
    assert (Hget : PyDict.get outputs name = Some (or_None found)).
    { apply dict_get_elem_of; [by rewrite Hkeys|].
      apply list_elem_of_fmap. by exists (name, path). }
    assert (Hfield : output_field result name = inr (or_None found)).
    { unfold output_field, result, fetch_result. cbn [subscript PyDict.get].
      rewrite decide_False by done. rewrite decide_True by done.
      cbn [subscript]. by rewrite Hget. }
    rewrite Hget, Hfield. split; intros Hlen.
    + destruct found; [simpl in Hlen; lia | done].
    + by destruct found.
Qed.

Lemma fetch_200_records_matches_witness :
  fetch (answering comic) xkcd_api [("id", "2630")] (fresh 10)
  = (Return (fetch_result [("id", "2630")]
               (VDict [("title", VList [VStr "Some Words"])])),
     mkState
       (<[cache_key xkcd_api [("id", "2630")] :=
            fetch_result [("id", "2630")]
              (VDict [("title", VList [VStr "Some Words"])])]> ∅)
       10 1
       [EvLookup (cache_key xkcd_api [("id", "2630")]) false;
        EvRequest (build_request xkcd_api [("id", "2630")] comic_url)]
       [])
  /\ subscript
       (fetch_result [("id", "2630")]
          (VDict [("title", VList [VStr "Some Words"])])) "output"
     = inr (VDict [("title", VList [VStr "Some Words"])])
  /\ output_field
       (fetch_result [("id", "2630")]
          (VDict [("title", VList [VStr "Some Words"])])) "title"
     = inr (VList [VStr "Some Words"]).
Proof.
  pose proof (fetch_200_records_matches (answering comic) xkcd_api
    [("id", "2630")] (fresh 10) comic_url comic
    (VDict [("safe_title", VStr "Some Words")])
    eq_refl eq_refl eq_refl eq_refl eq_refl) as H.
  destruct H as (Hfetch & _ & Hout & _ & Hfields).
  - simpl. apply NoDup_singleton.
  - intros name path Hin. apply list_elem_of_singleton in Hin as [= -> ->].
    by eexists.
  - split_and!; [exact Hfetch | exact Hout |].
    refine (proj2 (proj1 (Hfields "title" "$.safe_title" _) _)).
    + apply list_elem_of_here.
    + simpl. lia.
Defined.

(** ** Responses with another status *)

(** An attempt that returns ends the call: no second attempt, no sleep. *)
Lemma fetch_with_retry_first_attempt (E : Env) G api params s r s1 :
  (0 < semaphore s)%Z ->
  (0 < max_retries G)%Z ->
  fetch E api params
    (mkState (cache s) (semaphore s - 1) (requests_made s)
             (trace s ++ [EvCall (base_url api) params]) (results s))
  = (Return r, s1) ->
  fetch_with_retry E G api params s
  = (Return r,
     mkState (cache s1) (semaphore s) (requests_made s1) (trace s1)
             (results s1)).
Proof.
  intros Hsem Hmr Hf. apply fetch_with_retry_run; [done|].
  unfold py_range. destruct (Z.to_nat (max_retries G)) as [|n] eqn:Hn; [lia|].
  cbn [seq fmap list_fmap]. by apply retry_loop_return.
Qed.

(** C5.  A response with a status [S] other than 200: with a handler
    registered for [S], [fetch] returns a FetchResult whose ["output"] is
    what the handler returns, as it is; with none, the ["output"] of the
    returned FetchResult is the empty map, the status is logged, and
    nothing is raised.  In this second case a
    linkage step that starts with this fetch runs to its end: the result
    is stored in the accumulator, there is nothing to fan out, and the
    step returns. *)
Theorem fetch_other_status
    (E : Env) (G : Getter) (api end_api : API)
    (linkage_function : dict value -> exn + list pdict)
    (params : pdict) (s : state) (url : string) (response : Response) :
  let key := cache_key api params in
  let rq := build_request api params url in
  let stored outputs evs sem0 tr0 rs :=
    mkState (<[key := fetch_result params outputs]> (cache s)) sem0
            (S (requests_made s))
            (tr0 ++ [EvLookup key false; EvRequest rq] ++ evs) rs in
  cache s !! key = None ->
  build_url E api (List.filter (has_kind api URLParam) params) = inr url ->
  session_request E (requests_made s) rq = inr response ->
  status response <> 200%Z ->
  (forall error_handler outputs,
     error_handlers api !! status response = Some error_handler ->
     error_handler response = inr outputs ->
     exists result,
       fetch E api params s
       = (Return result,
          stored outputs [EvHandler (status response)]
                 (semaphore s) (trace s) (results s))
       /\ result = fetch_result params outputs
       /\ subscript result "input" = inr (params_value params)
       /\ subscript result "output" = inr outputs)
  /\ (error_handlers api !! status response = None ->
      (exists result,
         fetch E api params s
         = (Return result,
            stored (VDict []) [EvLog (LogStatus url (status response))]
                   (semaphore s) (trace s) (results s))
         /\ result = fetch_result params (VDict [])
         /\ subscript result "input" = inr (params_value params)
         /\ subscript result "output" = inr (VDict []))
      /\ ((0 < semaphore s)%Z -> (0 < max_retries G)%Z ->
          let acc := PyDict.set (results s) (base_url api)
                       (fetch_result params (VDict [])) in
          process_linkage E G (APILinkage api end_api linkage_function)
            params s
          = (Return acc,
             stored (VDict []) [EvLog (LogStatus url (status response))]
                    (semaphore s)
                    (trace s ++ [EvCall (base_url api) params]) acc))).
Proof.
  intros key rq stored Hmiss Hurl Hresp Hstatus. split.
  - intros h outputs Hh Hout. exists (fetch_result params outputs).
    split_and!; [|reflexivity..].
    rewrite (fetch_miss E api params s url Hmiss Hurl). fold rq key.
    by rewrite Hresp, decide_False, Hh, Hout.
  - intros Hh. split.
    + exists (fetch_result params (VDict [])).
      split_and!; [|reflexivity..].
      rewrite (fetch_miss E api params s url Hmiss Hurl). fold rq key.
      by rewrite Hresp, decide_False, Hh.
    + intros Hsem Hmr acc. unfold process_linkage, bind.
      erewrite fetch_with_retry_first_attempt; [|done|done|].
      2: { rewrite (fetch_miss E api params _ url); [|done..].
           cbn [requests_made]. fold rq key.
           rewrite Hresp, decide_False, Hh by done. reflexivity. }
      reflexivity.
Qed.

Lemma fetch_other_status_witness :
  exists result,
    fetch (answering not_found) xkcd_api [("id", "2630")] (fresh 10)
    = (Return result,
       mkState
         (<[cache_key xkcd_api [("id", "2630")] :=
              fetch_result [("id", "2630")]
                (VDict [("title", VList [VStr "No title found"])])]> ∅)
         10 1
         ([] ++ [EvLookup (cache_key xkcd_api [("id", "2630")]) false;
                 EvRequest (build_request xkcd_api [("id", "2630")]
                              comic_url)]
             ++ [EvHandler 404])
         [])
    /\ result = fetch_result [("id", "2630")]
                  (VDict [("title", VList [VStr "No title found"])])
    /\ subscript result "input" = inr (params_value [("id", "2630")])
    /\ subscript result "output"
       = inr (VDict [("title", VList [VStr "No title found"])]).
Proof.
  refine (proj1 (fetch_other_status (answering not_found) (mkGetter 3 10)
    xkcd_api dictionary_api wrap_word [("id", "2630")] (fresh 10)
    comic_url not_found _ _ _ _) _ _ _ _).
  - reflexivity.
  - reflexivity.
  - reflexivity.
  - done.
  - reflexivity.
  - reflexivity.
Defined.

(** ** What every computation of the getter preserves *)

Section preserves.
Context (R : relation state) `{!PreOrder R}.

Lemma preserves_ret {A} (a : A) : preserves R (ret a).
Proof. intros s o s' [= <- <-]. reflexivity. Qed.

Lemma preserves_lift {A} (r : exn + A) : preserves R (lift r).
Proof. intros s o s' Hl. unfold lift in Hl. destruct r; by simplify_eq. Qed.

Lemma preserves_bind {A B} (m : M A) (k : A -> M B) :
  preserves R m -> (forall a, preserves R (k a)) -> preserves R (bind m k).
Proof.
  intros Hm Hk s o s' Hb. unfold bind in Hb.
  destruct (m s) as [o1 s1] eqn:Hms. apply Hm in Hms.
  destruct o1 as [a|e|]; simplify_eq; [|done..].
  etrans; [exact Hms|]. by eapply Hk.
Qed.

Lemma preserves_gather {A} (ms : list (M A)) :
  Forall (preserves R) ms -> preserves R (gather ms).
Proof.
  induction 1 as [|m ms Hm _ IH]; simpl; [apply preserves_ret|].
  apply preserves_bind; [done|]. intros a.
  apply preserves_bind; [done|]. intros rest. apply preserves_ret.
Qed.

Lemma preserves_for_each {A} (xs : list A) (body : A -> M unit) :
  (forall x, preserves R (body x)) -> preserves R (for_each xs body).
Proof.
  intros Hbody. induction xs as [|x xs IH]; simpl; [apply preserves_ret|].
  apply preserves_bind; [done|]. by intros _.
Qed.

End preserves.












(** ** The cache *)



(** Calls on a key that is in the cache: all of them return what is
    stored, and the request counter stays where it is. *)
Lemma fetch_calls_cached (E : Env) key r calls : forall s,
  Forall (fun c => cache_key c.1 c.2 = key) calls ->
  cache s !! key = Some r ->
  exists s',
    fetch_calls E calls s = (replicate (length calls) (Return r), s')
    /\ requests_made s' = requests_made s
    /\ requests_of (trace s') = requests_of (trace s).
Proof.
  induction calls as [|[api params] calls IH]; intros s Hkeys Hc.
  - by exists s.
  - apply Forall_cons in Hkeys as [Hkey Hkeys]. simpl in Hkey.
    cbn [fetch_calls]. rewrite (fetch_hit E api params s r) by by rewrite Hkey.
    destruct (IH (mkState (cache s) (semaphore s) (requests_made s)
                    (trace s ++ [EvLookup (cache_key api params) true])
                    (results s)) Hkeys Hc) as (s' & -> & Hq & Ht).
    exists s'. split_and!; [done..|].
    rewrite Ht. cbn [trace]. rewrite requests_of_app. simpl. apply app_nil_r.
Qed.

(** C2, as amended.  Take fetch calls with one and the same cache key,
    issued one after the other.  Once a call has returned a FetchResult,
    every later call returns that FetchResult; a call sends a request only
    if no call before it has returned, so that the calls send at most one
    request more than the number of calls that raised.  In particular,
    when the first call returns, at most one request is sent and every
    other call returns the result of the first. *)
Theorem fetch_calls_same_key
    (E : Env) (key : cache_key_t) (calls : list (API * pdict)) (s : state)
    (os : list (outcome value)) (s' : state) :
  Forall (fun c => cache_key c.1 c.2 = key) calls ->
  fetch_calls E calls s = (os, s') ->
  length os = length calls
  /\ (forall i j r, i < j < length os ->
        os !! i = Some (Return r) -> os !! j = Some (Return r))
  /\ requests_made s'
     <= requests_made s + length (List.filter is_Raise os) + 1
  /\ (forall r os', os = Return r :: os' ->
        os' = replicate (length os') (Return r)
        /\ requests_made s' <= requests_made s + 1).
Proof.
  revert s os s'.
  induction calls as [|[api params] calls IH]; intros s os s' Hkeys Hcalls.
  - simpl in Hcalls. simplify_eq. split_and!; [done | | simpl; lia | done].
    intros i j r Hij. simpl in Hij. lia.
  - apply Forall_cons in Hkeys as [Hkey Hkeys]. simpl in Hkey.
    cbn [fetch_calls] in Hcalls.
    destruct (fetch E api params s) as [o s1] eqn:Hf.
    destruct (fetch_calls E calls s1) as [os1 s2] eqn:Hrest.
    simplify_eq.
    pose proof (fetch_footprint _ _ _ _ _ _ Hf) as (_ & Hhang & Hreq & Hst & _).
    destruct (IH _ _ _ Hkeys Hrest) as (Hlen & Hagree & Hcount & _).
    destruct o as [r|e|]; [| |done].
    + (* the first call returns: the others find its result *)
      specialize (Hst r eq_refl).
      destruct (fetch_calls_cached E _ r calls s1 Hkeys Hst)
        as (s2' & Hcached & Hq & _).
      rewrite Hrest in Hcached. simplify_eq.
      split_and!.
      * simpl. by rewrite length_replicate.
      * intros i j r' [Hij Hj] Hi. destruct j as [|j]; [lia|].
        simpl in Hj. rewrite length_replicate in Hj.
        destruct i as [|i].
        -- simpl in Hi. simplify_eq. simpl.
           apply lookup_replicate_2. lia.
        -- simpl in Hi. apply lookup_replicate in Hi as [-> _]. simpl.
           apply lookup_replicate_2. lia.
      * rewrite Hq. lia.
      * intros r' os' [= <- <-]. rewrite length_replicate. split; [done|lia].
    + split_and!.
      * simpl. by rewrite Hlen.
      * intros i j r [Hij Hj] Hi. destruct j as [|j]; [lia|].
        destruct i as [|i]; [done|]. simpl in *. apply (Hagree i); [lia|done].
      * simpl. lia.
      * intros r os' [=].
Qed.

Lemma fetch_calls_same_key_witness :
  requests_made
    (fetch_calls (answering comic)
       [(xkcd_api, [("id", "2630")]); (xkcd_api, [("id", "2630")])]
       (fresh 10)).2
  <= 0 + length (List.filter is_Raise
         (fetch_calls (answering comic)
            [(xkcd_api, [("id", "2630")]); (xkcd_api, [("id", "2630")])]
            (fresh 10)).1) + 1.
Proof.
  refine (proj1 (proj2 (proj2 (fetch_calls_same_key (answering comic)
    (cache_key xkcd_api [("id", "2630")])
    [(xkcd_api, [("id", "2630")]); (xkcd_api, [("id", "2630")])] (fresh 10)
    _ _ _ _)))).
  - repeat constructor.
  - apply surjective_pairing.
Defined.

(** C2, as stated, fails: two fetch calls with the same key, the first of
    which is failed by the world.  It stores nothing; the second call sends
    a request of its own. *)
Lemma failed_fetch_is_fetched_again :
  cache_key xkcd_api [("id", "2630")] = cache_key xkcd_api [("id", "2630")]
  /\ (let r := fetch_calls (flaky 1 503 comic)
                 [(xkcd_api, [("id", "2630")]); (xkcd_api, [("id", "2630")])]
                 (fresh 10) in
      r.1 = [Raise (ClientResponseError 503);
             Return (fetch_result [("id", "2630")]
                       (VDict [("title", VList [VStr "Some Words"])]))]
      /\ length (requests_of (trace r.2)) = 2
      /\ requests_made r.2 = 2).
Proof. vm_compute. done. Qed.

(** ** The fan-out of a linkage step *)

Lemma network_events_silent net :
  forallb is_network_event net = true ->
  fetch_calls_of net = [] /\ linkage_calls_of net = [] /\ callbacks_of net = [].
Proof.
  induction net as [|e net IH]; [done|]. simpl.
  intros [He Hnet]%andb_prop. destruct (IH Hnet) as (Hc & Hl & Hb).
  unfold fetch_calls_of, linkage_calls_of, callbacks_of in *.
  destruct e; try done; simpl; by rewrite ?Hc, ?Hl, ?Hb.
Qed.

Lemma engine_step_refl s : engine_step s s [] [] 0.
Proof. split; [done|]. exists []. by rewrite app_nil_r. Qed.

Lemma engine_step_trans s1 s2 s3 ds ds' calls calls' n n' :
  engine_step s1 s2 ds calls n ->
  engine_step s2 s3 ds' calls' n' ->
  engine_step s1 s3 (ds ++ ds') (calls ++ calls') (n + n').
Proof.
  intros (Hs & evs & Ht & <- & <- & <-) (Hs' & evs' & Ht' & <- & <- & <-).
  split; [congruence|]. exists (evs ++ evs').
  rewrite Ht', Ht, app_assoc.
  by rewrite linkage_calls_of_app, fetch_calls_of_app, callbacks_of_app,
    length_app.
Qed.

(** A call of [fetch_with_retry] whose attempts can only fail with a
    [ClientResponseError] returns, with the permits and the accumulator as
    it found them. *)
Lemma fetch_with_retry_returns (E : Env) G api params s :
  retryable_on E api params ->
  (0 < semaphore s)%Z ->
  exists r net s',
    fetch_with_retry E G api params s = (Return r, s')
    /\ semaphore s' = semaphore s
    /\ results s' = results s
    /\ trace s' = trace s ++ EvCall (base_url api) params :: net
    /\ forallb is_network_event net = true.
Proof.
  intros Hok Hsem.
  destruct (retry_loop_returns E G api params (py_range (max_retries G))
    (mkState (cache s) (semaphore s - 1) (requests_made s)
             (trace s ++ [EvCall (base_url api) params]) (results s)) Hok)
    as (r & s1 & Hl).
  pose proof (retry_loop_footprint _ _ _ _ _ _ _ _ Hl)
    as [(_ & Hr & _ & net & Ht & Hnet & _) _].
  simpl in Hr, Ht.
  exists r, net, (mkState (cache s1) (semaphore s) (requests_made s1)
                          (trace s1) (results s1)).
  split_and!; [by apply fetch_with_retry_run | done | done | | done].
  simpl. by rewrite Ht, <- app_assoc.
Qed.

(** The gathered downstream fetches: one call of [fetch_with_retry] per
    parameter map, one response per call. *)
Lemma gather_fetch_with_retry (E : Env) G api : forall ps s,
  (forall p, p ∈ ps -> retryable_on E api p) ->
  (0 < semaphore s)%Z ->
  exists rs s',
    gather (fetch_with_retry E G api <$> ps) s = (Return rs, s')
    /\ length rs = length ps
    /\ results s' = results s
    /\ engine_step s s' [] ((fun p => (base_url api, p)) <$> ps) 0.
Proof.
  intros ps. induction ps as [|p ps IH]; intros s Hok Hsem.
  - exists [], s. split_and!; [done..|]. apply engine_step_refl.
  - destruct (fetch_with_retry_returns E G api p s
      (Hok p ltac:(apply list_elem_of_here)) Hsem)
      as (r & net & s1 & Hf & Hs1 & Hr1 & Ht1 & Hnet).
    destruct (IH s1) as (rs & s2 & Hg & Hlen & Hr2 & Hstep); [|lia|].
    { intros p' Hp'. apply Hok. by apply list_elem_of_further. }
    exists (r :: rs), s2. split_and!.
    + cbn [fmap list_fmap gather]. unfold bind at 1. rewrite Hf.
      unfold bind at 1. by rewrite Hg.
    + simpl. by rewrite Hlen.
    + congruence.
    + destruct (network_events_silent net Hnet) as (Hc & Hl & Hb).
      apply (engine_step_trans s s1 s2 [] [] [(base_url api, p)] _ 0 0);
        [|done].
      split; [done|]. exists (EvCall (base_url api) p :: net).
      split_and!; [done|..].
      * change (linkage_calls_of net = []). exact Hl.
      * change ((base_url api, p) :: fetch_calls_of net
                = [(base_url api, p)]). by rewrite Hc.
      * change (length (callbacks_of net) = 0). by rewrite Hb.
Qed.

(** Storing the responses: one write and one callback per response. *)
Lemma store_responses u : forall rs s,
  exists s',
    for_each rs (fun end_response =>
      results_put u end_response ;;; callback) s = (Return tt, s')
    /\ engine_step s s' [] [] (length rs).
Proof.
  intros rs. induction rs as [|r rs IH]; intros s.
  - exists s. split; [done|]. apply engine_step_refl.
  - destruct (IH (mkState (cache s) (semaphore s) (requests_made s)
                    (trace s ++ [EvCallback (PyDict.set (results s) u r)])
                    (PyDict.set (results s) u r))) as (s' & Hloop & Hstep).
    exists s'. split; [exact Hloop|].
    eapply (engine_step_trans s _ s' [] [] [] [] 1 (length rs));
      [|exact Hstep].
    split; [done|]. by eexists.
Qed.

(** The fan-out of one value: the linkage function is called once, with
    the singleton map of the value; every parameter map it returns is
    fetched; every response is stored and shown to the callback. *)
Lemma fan_out_spec (E : Env) G end_api f key v ps s :
  (forall p, p ∈ ps -> retryable_on E end_api p) ->
  (0 < semaphore s)%Z ->
  f [(key, v)] = inr ps ->
  exists s',
    fan_out E G end_api f key v s = (Return tt, s')
    /\ exists wave,
         semaphore s' = semaphore s
         /\ trace s' = trace s ++ EvLinkage [(key, v)] :: wave
         /\ linkage_calls_of wave = []
         /\ fetch_calls_of wave = (fun p => (base_url end_api, p)) <$> ps
         /\ length (callbacks_of wave) = length ps.
Proof.
  intros Hok Hsem Hf.
  destruct (gather_fetch_with_retry E G end_api ps
    (mkState (cache s) (semaphore s) (requests_made s)
             (trace s ++ [EvLinkage [(key, v)]]) (results s)) Hok Hsem)
    as (rs & s1 & Hg & Hlen & _ & Hstep1).
  destruct (store_responses (base_url end_api) rs s1) as (s' & Hloop & Hstep2).
  exists s'. split.
  - unfold fan_out. unfold bind at 1, emit. unfold bind at 1, lift.
    rewrite Hf. unfold bind at 1. cbn beta iota. rewrite Hg. exact Hloop.
  - pose proof (engine_step_trans _ _ _ _ _ _ _ _ _ Hstep1 Hstep2)
      as (Hs & wave & Ht & Hl & Hc & Hb).
    exists wave. simpl in Hs, Ht, Hl, Hc, Hb. rewrite app_nil_r in Hc.
    split_and!; [done | by rewrite Ht, <- app_assoc | done | done |].
    by rewrite Hb, Hlen.
Qed.

(** The loop over the values of one field. *)
Lemma fan_out_values (E : Env) G end_api f key : forall vs s,
  (0 < semaphore s)%Z ->
  (forall v, v ∈ vs ->
     exists ps, f [(key, v)] = inr ps
                /\ forall p, p ∈ ps -> retryable_on E end_api p) ->
  exists s',
    for_each vs (fan_out E G end_api f key) s = (Return tt, s')
    /\ engine_step s s'
         ((fun v => [(key, v)]) <$> vs)
         (flat_map (fun v => (fun p => (base_url end_api, p))
                               <$> params_of f [(key, v)]) vs)
         (length (flat_map (fun v => params_of f [(key, v)]) vs)).
Proof.
  intros vs. induction vs as [|v vs IH]; intros s Hsem Hf.
  - exists s. split; [done|]. apply engine_step_refl.
  - destruct (Hf v) as (ps & Hps & Hok); [apply list_elem_of_here|].
    destruct (fan_out_spec E G end_api f key v ps s Hok Hsem Hps)
      as (s1 & Hfan & wave & Hs1 & Ht1 & Hl1 & Hc1 & Hb1).
    destruct (IH s1 ltac:(lia)) as (s' & Hloop & Hstep).
    { intros v' Hv'. apply Hf. by apply list_elem_of_further. }
    exists s'. split.
    + cbn [for_each]. unfold bind at 1. by rewrite Hfan.
    + cbn [fmap list_fmap flat_map]. rewrite length_app.
      unfold params_of at 1 3. rewrite Hps.
      apply (engine_step_trans s s1 s' [[(key, v)]] _ _ _ (length ps));
        [|done].
      split; [done|]. exists (EvLinkage [(key, v)] :: wave).
      split_and!; [done|..].
      * change ([(key, v)] :: linkage_calls_of wave = [[(key, v)]]).
        by rewrite Hl1.
      * change (fetch_calls_of wave
                = (fun p => (base_url end_api, p)) <$> ps). exact Hc1.
      * change (length (callbacks_of wave) = length ps). exact Hb1.
Qed.

(** The loop over the fields of the start response. *)
Lemma fan_out_fields (E : Env) G end_api f : forall outputs s,
  (0 < semaphore s)%Z ->
  (forall d, d ∈ singletons outputs ->
     exists ps, f d = inr ps
                /\ forall p, p ∈ ps -> retryable_on E end_api p) ->
  exists s',
    for_each outputs (fun kv =>
      for_each (as_list kv.2) (fan_out E G end_api f kv.1)) s
    = (Return tt, s')
    /\ engine_step s s'
         (singletons outputs)
         (flat_map (fun d => (fun p => (base_url end_api, p)) <$> params_of f d)
                   (singletons outputs))
         (length (flat_map (params_of f) (singletons outputs))).
Proof.
  intros outputs. induction outputs as [|[key values] outputs IH];
    intros s Hsem Hf.
  - exists s. split; [done|]. apply engine_step_refl.
  - destruct (fan_out_values E G end_api f key (as_list values) s Hsem)
      as (s1 & Hvals & Hstep1).
    { intros v Hv. apply Hf. unfold singletons. cbn [flat_map fst snd].
      apply elem_of_app. left. apply list_elem_of_fmap. by exists v. }
    destruct Hstep1 as [Hs1 Hstep1].
    destruct (IH s1 ltac:(lia)) as (s' & Hloop & Hstep2).
    { intros d Hd. apply Hf. unfold singletons. cbn [flat_map].
      apply elem_of_app. by right. }
    exists s'. split.
    + cbn [for_each]. unfold bind at 1. cbn [fst snd]. by rewrite Hvals.
    + unfold singletons. cbn [flat_map fst snd].
      rewrite !flat_map_app, length_app.
      eapply engine_step_trans; [|exact Hstep2].
      split; [done|]. destruct Hstep1 as (evs & Ht & Hl & Hc & Hb).
      exists evs. split_and!; [done | done | |].
      * rewrite Hc. clear. induction (as_list values) as [|v vs IHv]; [done|].
        simpl. by rewrite IHv.
      * rewrite Hb. f_equal. clear.
        induction (as_list values) as [|v vs IHv]; [done|].
        simpl. by rewrite IHv.
Qed.

Lemma bind_Return {A B} (m : M A) (k : A -> M B) s a s' :
  m s = (Return a, s') -> bind m k s = k a s'.
Proof. intros Hm. unfold bind. by rewrite Hm. Qed.


(** The fan-out of a value for which the linkage function returns one
    parameter map: one downstream fetch; its response is written into the
    accumulator and the callback is called on the spot. *)
Lemma fan_out_single (E : Env) G end_api f key v p s :
  retryable_on E end_api p ->
  (0 < semaphore s)%Z ->
  f [(key, v)] = inr [p] ->
  let sA := mkState (cache s) (semaphore s) (requests_made s)
                    (trace s ++ [EvLinkage [(key, v)]]) (results s) in
  exists r net sB,
    fetch_with_retry E G end_api p sA = (Return r, sB)
    /\ trace sB = trace sA ++ EvCall (base_url end_api) p :: net
    /\ forallb is_network_event net = true
    /\ fan_out E G end_api f key v s
       = (Return tt,
          mkState (cache sB) (semaphore s) (requests_made sB)
            (trace sB
               ++ [EvCallback (PyDict.set (results s) (base_url end_api) r)])
            (PyDict.set (results s) (base_url end_api) r)).
Proof.
  intros Hok Hsem Hf sA.
  destruct (fetch_with_retry_returns E G end_api p sA Hok Hsem)
    as (r & net & sB & Hfetch & HsB & HrB & HtB & Hnet).
  exists r, net, sB. split_and!; [done..|].
  unfold fan_out. unfold bind at 1, emit. unfold bind at 1, lift.
  rewrite Hf. unfold bind at 1. cbn [fmap list_fmap gather].
  fold sA. unfold bind at 1. rewrite Hfetch. unfold bind at 1, ret.
  cbn [for_each]. unfold bind, results_put, callback, emit, ret.
  cbn [cache semaphore requests_made trace results].
  rewrite HsB, HrB. reflexivity.
Qed.


(** With every declared path well formed, the extraction loop returns. *)
Lemma extract_returns (E : Env) response_json fields : forall outputs,
  (forall name path, (name, path) ∈ fields ->
     exists find, jsonpath E path = inr find) ->
  exists found, extract E fields response_json outputs = inr found.
Proof.
  induction fields as [|[name path] fields IH]; intros outputs Hwf.
  - by eexists.
  - destruct (Hwf name path) as [find Hfind]; [apply list_elem_of_here|].
    cbn [extract]. rewrite Hfind. apply IH.
    intros name' path' Hin. apply (Hwf name' path').
    by apply list_elem_of_further.
Qed.

(** In a world that answers every request with the same response, a fetch
    whose URL can be built raises nothing when the response is a 200 with
    a JSON body and the declared paths are well formed, or has another
    status whose handler, if there is one, returns. *)
Lemma answering_retryable_on response api params :
  (exists url,
     build_url (answering response) api
       (List.filter (has_kind api URLParam) params) = inr url) ->
  (status response = 200%Z ->
     (exists body, json response = inr body)
     /\ forall name path, (name, path) ∈ output_params api ->
          exists find, sample_jsonpath path = inr find) ->
  (forall h, error_handlers api !! status response = Some h ->
     exists outputs, h response = inr outputs) ->
  retryable_on (answering response) api params.
Proof.
  intros [url Hurl] H200 Hh s e s' Hf.
  destruct (cache s !! cache_key api params) as [r|] eqn:Hc.
  - by rewrite (fetch_hit _ _ _ _ _ Hc) in Hf.
  - rewrite (fetch_miss _ _ _ _ url Hc Hurl) in Hf.
    cbn [session_request answering] in Hf.
    destruct (decide (status response = 200%Z)) as [Hst|Hst].
    + destruct (H200 Hst) as [[body Hbody] Hwf]. rewrite Hbody in Hf.
      destruct (extract_returns (answering response) body (output_params api)
                  [] Hwf) as [found Hfound].
      rewrite Hfound in Hf. discriminate.
    + destruct (error_handlers api !! status response) as [h|] eqn:Hhandler;
        [|discriminate].
      destruct (Hh h eq_refl) as [outputs Hout]. rewrite Hout in Hf.
      discriminate.
Qed.


(** A lookup in the dictionary that is answered with a 200 and a JSON
    body. *)
Lemma dictionary_lookup_answered body word :
  retryable_on (answering (mkResponse 200 (inr body))) dictionary_api
    [("word", word)].
Proof.
  apply answering_retryable_on.
  - by eexists.
  - intros _. split; [by eexists|].
    intros name path Hin. apply list_elem_of_singleton in Hin as [= -> ->].
    by eexists.
  - done.
Qed.


(** ** A field that matched nothing *)

Lemma for_each_app {A} (xs ys : list A) (body : A -> M unit) s :
  for_each (xs ++ ys) body s
  = bind (for_each xs body) (fun _ => for_each ys body) s.
Proof.
  revert s. induction xs as [|x xs IH]; intros s; [done|].
  cbn [app for_each]. unfold bind.
  destruct (body x s) as [[[]| |] s1]; [|done..]. by rewrite IH.
Qed.

Lemma singletons_app outs1 outs2 :
  singletons (outs1 ++ outs2) = singletons outs1 ++ singletons outs2.
Proof. apply flat_map_app. Qed.

Lemma singletons_keys outs d :
  d ∈ singletons outs -> exists k v, d = [(k, v)] /\ k ∈ PyDict.keys outs.
Proof.
  unfold singletons, PyDict.keys.
  induction outs as [|[k vs] outs IH]; simpl; intros Hd.
  - by apply elem_of_nil in Hd.
  - apply elem_of_app in Hd as [Hd|Hd].
    + apply list_elem_of_fmap in Hd as (v & -> & _).
      exists k, v. split; [done | apply list_elem_of_here].
    + destruct (IH Hd) as (k' & v & -> & Hk').
      exists k', v. split; [done | by apply list_elem_of_further].
Qed.

(** The start fetch on a 200 response, first attempt. *)
Lemma fetch_with_retry_200 (E : Env) G api params s url response response_json :
  let key := cache_key api params in
  let rq := build_request api params url in
  let outputs :=
    (fun kv => (kv.1, or_None (matches E kv.2 response_json)))
      <$> output_params api in
  (0 < semaphore s)%Z ->
  (0 < max_retries G)%Z ->
  cache s !! key = None ->
  build_url E api (List.filter (has_kind api URLParam) params) = inr url ->
  session_request E (requests_made s) rq = inr response ->
  status response = 200%Z ->
  json response = inr response_json ->
  NoDup (PyDict.keys (output_params api)) ->
  (forall name path, (name, path) ∈ output_params api ->
     exists find, jsonpath E path = inr find) ->
  fetch_with_retry E G api params s
  = (Return (fetch_result params (VDict outputs)),
     mkState (<[key := fetch_result params (VDict outputs)]> (cache s))
       (semaphore s) (S (requests_made s))
       (trace s ++ [EvCall (base_url api) params; EvLookup key false;
                    EvRequest rq])
       (results s)).
Proof.
  intros key rq outputs Hsem Hmr Hmiss Hurl Hresp H200 Hjson Hnd Hwf.
  erewrite fetch_with_retry_first_attempt; [|done|done|].
  2: { rewrite (fetch_miss E api params _ url); [|done..].
       cbn [requests_made]. fold rq key.
       rewrite Hresp, decide_True, Hjson by done.
       rewrite extract_fields; [reflexivity | done | | done].
       intros k _. apply not_elem_of_nil. }
  cbn [cache semaphore requests_made trace results app].
  by rewrite <- app_assoc.
Qed.

(** A linkage step, once its start fetch has returned a response with
    an output map: the response is stored and the fields are fanned out. *)
Lemma process_linkage_after_start (E : Env) G start_api end_api f params s
    start_response s1 outputs :
  fetch_with_retry E G start_api params s = (Return start_response, s1) ->
  subscript start_response "output" = inr (VDict outputs) ->
  process_linkage E G (APILinkage start_api end_api f) params s
  = bind (for_each outputs (fun kv =>
            for_each (as_list kv.2) (fan_out E G end_api f kv.1)))
         (fun _ s => ret (results s) s)
      (mkState (cache s1) (semaphore s1) (requests_made s1) (trace s1)
         (PyDict.set (results s1) (base_url start_api) start_response)).
Proof.
  intros Hstart Hout. unfold process_linkage.
  erewrite bind_Return; [|exact Hstart].
  unfold bind at 1, results_put. unfold bind at 1, lift. rewrite Hout.
  unfold bind at 1. reflexivity.
Qed.

(** C9.  A declared output field of the start endpoint whose path matches
    nothing in a 200 response is recorded as [None] in the FetchResult
    that the start fetch returns; in the linkage step it is fanned out
    like any other field: the linkage function is called with the
    singleton map of the field and [None] (once, and for no other field),
    and every parameter map it returns is fetched from the end endpoint
    and followed by a callback.  The downstream fetches assumed to fail
    with nothing but a [ClientResponseError] are those of the parameter
    maps the linkage function returns. *)
Theorem unmatched_field_still_fans_out
    (E : Env) (G : Getter) (start_api end_api : API)
    (f : dict value -> exn + list pdict)
    (params : pdict) (s : state) (url : string) (response : Response)
    (response_json : value) (name path : string) :
  let key := cache_key start_api params in
  let rq := build_request start_api params url in
  let outputs :=
    (fun kv => (kv.1, or_None (matches E kv.2 response_json)))
      <$> output_params start_api in
  let result := fetch_result params (VDict outputs) in
  (0 < semaphore s)%Z ->
  (0 < max_retries G)%Z ->
  cache s !! key = None ->
  build_url E start_api (List.filter (has_kind start_api URLParam) params)
  = inr url ->
  session_request E (requests_made s) rq = inr response ->
  status response = 200%Z ->
  json response = inr response_json ->
  NoDup (PyDict.keys (output_params start_api)) ->
  (forall name' path', (name', path') ∈ output_params start_api ->
     exists find, jsonpath E path' = inr find) ->
  (name, path) ∈ output_params start_api ->
  matches E path response_json = [] ->
  (forall d, d ∈ singletons outputs ->
     exists ps, f d = inr ps
                /\ forall p, p ∈ ps -> retryable_on E end_api p) ->
  PyDict.get outputs name = Some VNone
  /\ output_field result name = inr VNone
  /\ (exists s1,
        fetch_with_retry E G start_api params s = (Return result, s1))
  /\ (exists s' before wave after,
       process_linkage E G (APILinkage start_api end_api f) params s
       = (Return (results s'), s')
       /\ trace s'
          = trace s ++ before ++ EvLinkage [(name, VNone)] :: wave ++ after
       /\ linkage_calls_of wave = []
       /\ fetch_calls_of wave
          = (fun p => (base_url end_api, p)) <$> params_of f [(name, VNone)]
       /\ length (callbacks_of wave) = length (params_of f [(name, VNone)])
       /\ ([(name, VNone)] ∉ linkage_calls_of before)
       /\ ([(name, VNone)] ∉ linkage_calls_of after)).
Proof.
  intros key rq outputs result Hsem Hmr Hmiss Hurl Hresp H200 Hjson Hnd Hwf
    Hin Hnone Hf.
  set (g := fun kv : string * string =>
              (kv.1, or_None (matches E kv.2 response_json))) in *.
  assert (Hkeys : forall l : dict string, PyDict.keys (g <$> l) = PyDict.keys l).
  { intros l. unfold PyDict.keys. rewrite <- list_fmap_compose.
    by apply list_fmap_ext. }
  assert (Hget : PyDict.get outputs name = Some VNone).
  { apply dict_get_elem_of; [unfold outputs; by rewrite Hkeys|].
    apply list_elem_of_fmap. exists (name, path). split; [|done].
    unfold g. simpl. by rewrite Hnone. }
  split; [exact Hget|].
  split.
  { unfold output_field, result, fetch_result. cbn [subscript PyDict.get].
    rewrite decide_False by done. rewrite decide_True by done.
    cbn [subscript]. by rewrite Hget. }
  apply list_elem_of_split in Hin as (l1 & l2 & Hsplit).
  assert (Houts : outputs = (g <$> l1) ++ (name, VNone) :: (g <$> l2)).
  { unfold outputs. rewrite Hsplit, fmap_app, fmap_cons. unfold g at 2.
    simpl. by rewrite Hnone. }
  pose proof Hnd as Hnd'. rewrite Hsplit in Hnd'. unfold PyDict.keys in Hnd'.
  rewrite fmap_app, fmap_cons in Hnd'. simpl in Hnd'.
  apply NoDup_app in Hnd' as (_ & Hl1 & Hnd').
  apply NoDup_cons in Hnd' as [Hl2 _].
  assert (Hname1 : name ∉ PyDict.keys (g <$> l1)).
  { rewrite Hkeys. intros Hn. apply (Hl1 name Hn), list_elem_of_here. }
  assert (Hname2 : name ∉ PyDict.keys (g <$> l2)) by by rewrite Hkeys.
  set (R := fetch_result params (VDict outputs)) in *.
  set (s1 := mkState (<[key := R]> (cache s)) (semaphore s)
               (S (requests_made s))
               (trace s ++ [EvCall (base_url start_api) params;
                            EvLookup key false; EvRequest rq])
               (results s)).
  assert (Hstart : fetch_with_retry E G start_api params s = (Return R, s1))
    by by apply (fetch_with_retry_200 E G start_api params s url response
                   response_json).
  split; [by exists s1|].
  rewrite (process_linkage_after_start E G start_api end_api f params s R s1
             outputs Hstart eq_refl).
  set (s0 := mkState (cache s1) (semaphore s1) (requests_made s1) (trace s1)
               (PyDict.set (results s1) (base_url start_api) R)).
  set (body := fun kv : string * value =>
                 for_each (as_list kv.2) (fan_out E G end_api f kv.1)).
  rewrite Houts in Hf |- *. rewrite singletons_app in Hf.
  change (singletons ((name, VNone) :: (g <$> l2)))
    with ([(name, VNone)] :: singletons (g <$> l2)) in Hf.
  (* the fields before *)
  destruct (fan_out_fields E G end_api f (g <$> l1) s0 Hsem)
    as (sa & Hloop1 & Hsa & evs1 & Hta & Hla & _).
  { intros d Hd. apply Hf, elem_of_app. by left. }
  (* the field that matched nothing *)
  destruct (Hf [(name, VNone)]) as (ps & Hps & Hok).
  { apply elem_of_app. right. apply list_elem_of_here. }
  destruct (fan_out_spec E G end_api f name VNone ps sa Hok
    ltac:(rewrite Hsa; exact Hsem) Hps)
    as (sb & Hfan & wave & Hsb & Htb & Hlw & Hcw & Hbw).
  (* the fields after *)
  destruct (fan_out_fields E G end_api f (g <$> l2) sb
    ltac:(rewrite Hsb, Hsa; exact Hsem))
    as (s' & Hloop2 & _ & evs2 & Ht' & Hl' & _).
  { intros d Hd. apply Hf, elem_of_app. right. by apply list_elem_of_further. }
  exists s', ([EvCall (base_url start_api) params; EvLookup key false;
               EvRequest rq] ++ evs1), wave, evs2.
  unfold params_of. rewrite Hps.
  split_and!; [| |done|done|done| |].
  - assert (Hloop : for_each ((g <$> l1) ++ (name, VNone) :: (g <$> l2))
                      body s0 = (Return tt, s')).
    { rewrite for_each_app. erewrite bind_Return; [|exact Hloop1].
      cbn [for_each]. erewrite bind_Return; [exact Hloop2|].
      unfold body. cbn [as_list snd fst for_each].
      erewrite bind_Return; [|exact Hfan]. reflexivity. }
    erewrite bind_Return; [|exact Hloop]. reflexivity.
  - rewrite Ht', Htb, Hta. unfold s0, s1. cbn [trace].
    rewrite <- !app_assoc. reflexivity.
  - rewrite linkage_calls_of_app, Hla. cbn [linkage_calls_of omap list_omap app].
    intros Hd. apply singletons_keys in Hd as (k & v & [= <- _] & Hk). done.
  - rewrite Hl'.
    intros Hd. apply singletons_keys in Hd as (k & v & [= <- _] & Hk). done.
Qed.

Lemma unmatched_field_still_fans_out_witness :
  output_field
    (fetch_result [("id", "2630")] (VDict [("title", VNone)])) "title"
  = inr VNone
  /\ exists s' before wave after,
       process_linkage (answering no_title) (mkGetter 3 10)
         (APILinkage xkcd_api dictionary_api wrap_word) [("id", "2630")]
         (fresh 10)
       = (Return (results s'), s')
       /\ trace s'
          = trace (fresh 10) ++ before
              ++ EvLinkage [("title", VNone)] :: wave ++ after
       /\ fetch_calls_of wave = [(base_url dictionary_api, [("word", "")])].
Proof.
  destruct (unmatched_field_still_fans_out (answering no_title)
    (mkGetter 3 10) xkcd_api dictionary_api wrap_word [("id", "2630")]
    (fresh 10) comic_url no_title (VDict [("num", VInt 1)])
    "title" "$.safe_title"
    ltac:(simpl; lia) ltac:(simpl; lia) eq_refl eq_refl eq_refl eq_refl eq_refl
    ltac:(simpl; apply NoDup_singleton)
    ltac:(intros name' path' Hin;
          apply list_elem_of_singleton in Hin as [= -> ->]; by eexists)
    ltac:(apply list_elem_of_here) eq_refl
    ltac:(intros d Hd; apply list_elem_of_singleton in Hd as ->;
          exists [[("word", "")]]; split; [reflexivity|];
          intros p Hp; apply list_elem_of_singleton in Hp as ->;
          apply dictionary_lookup_answered))
    as (_ & Hfield & _ & s' & before & wave & after & Hstep & Htrace & _
        & Hcalls & _).
  split; [exact Hfield|].
  exists s', before, wave, after. split_and!; [exact Hstep | exact Htrace |].
  exact Hcalls.
Defined.

(** * More of the engine *)

(** ** The body template *)

(** A template with at least one entry is filled entry by entry. *)
Lemma populate_template_entries (template params : dict value) :
  template <> [] ->
  populate_template template params = populate_entry params <$> template.
Proof.
  intros Hne. destruct template as [|[k v] t]; [done|]. clear Hne.
  unfold populate_template. cbn [populate_value].
  cbn [fmap list_fmap]. f_equal.
  - unfold populate_entry. by destruct v.
  - induction t as [|[k' v'] t IH]; [done|].
    cbn [fmap list_fmap]. f_equal; [|exact IH].
    unfold populate_entry. by destruct v'.
Qed.

Lemma dict_get_populate_entry (params template : dict value) k :
  PyDict.get (populate_entry params <$> template) k
  = (fun v => (populate_entry params (k, v)).2) <$> PyDict.get template k.
Proof.
  induction template as [|[k' v'] t IH]; [done|].
  cbn [fmap list_fmap PyDict.get populate_entry fst snd].
  destruct (decide (k' = k)) as [->|Hne]; [done|]. exact IH.
Qed.

(** X1.  The body built from a template with at least one entry has, at
    top level, the keys of the template, in the order of the template,
    whatever the parameters: a name that is not a top-level key of the
    template is not a top-level key of the body.  Below the top level the
    parameters can still show, see X3. *)
Theorem populate_template_keeps_shape (template params : dict value) :
  template <> [] ->
  PyDict.keys (populate_template template params) = PyDict.keys template
  /\ (forall k, k ∉ PyDict.keys template ->
                PyDict.get (populate_template template params) k = None).
Proof.
  intros Hne. rewrite populate_template_entries by done.
  assert (Hkeys : PyDict.keys (populate_entry params <$> template)
                  = PyDict.keys template).
  { unfold PyDict.keys. rewrite <- list_fmap_compose.
    by apply list_fmap_ext. }
  split; [done|]. intros k Hk. apply dict_get_None_keys. by rewrite Hkeys.
Qed.

Lemma populate_template_keeps_shape_witness :
  PyDict.keys (populate_template [("lang", VStr "en"); ("page", VInt 1)]
                 [("page", VStr "7"); ("debug", VStr "yes")])
  = ["lang"; "page"].
Proof.
  refine (proj1 (populate_template_keeps_shape
    [("lang", VStr "en"); ("page", VInt 1)]
    [("page", VStr "7"); ("debug", VStr "yes")] _)).
  done.
Defined.

(** X2.  A leaf of the template (an entry whose value is not a dictionary)
    takes the value of the parameter of the same name when there is one,
    and keeps the value written in the template otherwise. *)
Theorem populate_template_leaf (template params : dict value) k v :
  PyDict.get template k = Some v ->
  is_dict v = false ->
  PyDict.get (populate_template template params) k
  = Some (default v (PyDict.get params k)).
Proof.
  intros Hget Hleaf.
  rewrite populate_template_entries by (by destruct template).
  rewrite dict_get_populate_entry, Hget. cbn [fmap option_fmap option_map].
  unfold populate_entry. cbn [fst snd]. by destruct v.
Qed.

Lemma populate_template_leaf_witness :
  PyDict.get (populate_template [("lang", VStr "en"); ("page", VInt 1)]
                [("page", VStr "7")]) "page"
  = Some (default (VInt 1) (PyDict.get [("page", VStr "7")] "page")).
Proof.
  apply (populate_template_leaf [("lang", VStr "en"); ("page", VInt 1)]
           [("page", VStr "7")] "page" (VInt 1)); reflexivity.
Defined.

(** X3.  A nested dictionary of the template is filled from the same flat
    parameters, by name, at any depth.  A nested dictionary that is empty
    is not kept empty: it becomes the whole parameter map. *)
Theorem populate_template_nested (template params sub : dict value) k :
  PyDict.get template k = Some (VDict sub) ->
  PyDict.get (populate_template template params) k
  = Some (VDict (populate_template sub params))
  /\ (sub = [] ->
      PyDict.get (populate_template template params) k = Some (VDict params)).
Proof.
  intros Hget.
  assert (Heq : PyDict.get (populate_template template params) k
                = Some (VDict (populate_template sub params))).
  { rewrite populate_template_entries by (by destruct template).
    by rewrite dict_get_populate_entry, Hget. }
  split; [done|]. intros ->. by rewrite Heq.
Qed.

Lemma populate_template_nested_witness :
  PyDict.get (populate_template [("query", VDict [])] [("word", VStr "some")])
    "query"
  = Some (VDict [("word", VStr "some")]).
Proof.
  refine (proj2 (populate_template_nested [("query", VDict [])]
    [("word", VStr "some")] [] "query" _) _); reflexivity.
Defined.

(** ** The request and the cache key *)

Lemma filter_has_kind_declared api kind params :
  List.filter (has_kind api kind) (List.filter (declared api) params)
  = List.filter (has_kind api kind) params.
Proof.
  induction params as [|kv params IH]; [done|]. cbn [List.filter].
  destruct (declared api kv) eqn:Hd; cbn [List.filter].
  - by rewrite IH.
  - rewrite IH. destruct (has_kind api kind kv) eqn:Hk; [|done].
    unfold has_kind, declared in *.
    apply bool_decide_eq_true in Hk. apply bool_decide_eq_false in Hd.
    destruct Hd. by rewrite Hk.
Qed.

Lemma request_of_declared (api : API) (params params' : pdict) url :
  List.filter (declared api) params = List.filter (declared api) params' ->
  List.filter (has_kind api URLParam) params
  = List.filter (has_kind api URLParam) params'
  /\ build_request api params url = build_request api params' url.
Proof.
  intros Hd.
  assert (Hk : forall kind, List.filter (has_kind api kind) params
                            = List.filter (has_kind api kind) params').
  { intros kind. rewrite <- (filter_has_kind_declared api kind params).
    rewrite <- (filter_has_kind_declared api kind params'). by rewrite Hd. }
  split; [apply Hk|]. unfold build_request. by rewrite (Hk DataParam).
Qed.

(** X4.  The request is built from the declared parameters only: parameter
    maps that agree on the parameters the endpoint declares give the same
    URL parameters and the same request, and a parameter is never both a
    URL parameter and a body parameter. *)
Theorem request_ignores_undeclared_parameters
    (api : API) (params params' : pdict) (url : string) :
  List.filter (declared api) params = List.filter (declared api) params' ->
  List.filter (has_kind api URLParam) params
  = List.filter (has_kind api URLParam) params'
  /\ build_request api params url = build_request api params' url
  /\ (forall kv, has_kind api URLParam kv && has_kind api DataParam kv
                 = false).
Proof.
  intros Hd. destruct (request_of_declared api params params' url Hd)
    as [Hurl Hrq].
  split_and!; [done | done |]. intros kv. unfold has_kind.
  destruct (input_params api !! kv.1) as [[]|]; by repeat case_bool_decide.
Qed.

Lemma request_ignores_undeclared_parameters_witness :
  build_request xkcd_api [("id", "2630"); ("lang", "en")]
    comic_url
  = build_request xkcd_api [("id", "2630")] comic_url.
Proof.
  refine (proj1 (proj2 (request_ignores_undeclared_parameters xkcd_api
    [("id", "2630"); ("lang", "en")] [("id", "2630")] comic_url _))).
  reflexivity.
Defined.

(** The shape of what a fetch returns on a cache miss: the parameters of
    this very call under ["input"]. *)
Lemma fetch_miss_returns (E : Env) api params s r s1 :
  cache s !! cache_key api params = None ->
  fetch E api params s = (Return r, s1) ->
  exists outputs,
    r = fetch_result params outputs
    /\ cache s1 = <[cache_key api params := r]> (cache s).
Proof.
  intros Hmiss Hf.
  destruct (build_url E api (List.filter (has_kind api URLParam) params))
    as [e|url] eqn:Hurl.
  { unfold fetch in Hf. rewrite Hmiss in Hf.
    unfold bind, emit, lift in Hf. simpl in Hf. by rewrite Hurl in Hf. }
  rewrite (fetch_miss E _ _ _ _ Hmiss Hurl) in Hf.
  repeat case_match; simplify_eq; by eexists.
Qed.



(** The cache is written in one way only: by a fetch that missed and
    returns, under the key of the call.  Every other entry is left as it
    is, and a fetch that raises leaves the whole cache as it is. *)
Lemma fetch_cache_write (E : Env) api params s o s' :
  fetch E api params s = (o, s') ->
  cache s' = cache s
  \/ exists r, o = Return r
               /\ cache s !! cache_key api params = None
               /\ cache s' = <[cache_key api params := r]> (cache s).
Proof.
  intros Hf.
  destruct (cache s !! cache_key api params) as [r|] eqn:Hc.
  { rewrite (fetch_hit E _ _ _ _ Hc) in Hf. simplify_eq. by left. }
  destruct o as [r|e|].
  - right. exists r.
    destruct (fetch_miss_returns E api params s r s' Hc Hf) as (? & _ & ?).
    done.
  - left. apply fetch_footprint in Hf as (_ & _ & _ & _ & Hr). by apply (Hr e).
  - by apply fetch_footprint in Hf as (_ & ? & _).
Qed.

(** X6.  A fetch changes the cache at the key of the call and nowhere else;
    what is stored under that key is never replaced; a fetch that raises
    leaves the whole cache as it is. *)
Theorem fetch_writes_own_key_only
    (E : Env) (api : API) (params : pdict) (s : state)
    (o : outcome value) (s' : state) :
  fetch E api params s = (o, s') ->
  (forall k, k <> cache_key api params -> cache s' !! k = cache s !! k)
  /\ (forall r, cache s !! cache_key api params = Some r ->
                cache s' !! cache_key api params = Some r)
  /\ (forall e, o = Raise e -> cache s' = cache s).
Proof.
  intros Hf. destruct (fetch_cache_write E api params s o s' Hf)
    as [Heq|(r & -> & Hmiss & Heq)]; rewrite Heq.
  - split_and!; [done|done|done].
  - split_and!.
    + intros k Hk. by rewrite lookup_insert_ne.
    + intros r'. by rewrite Hmiss.
    + done.
Qed.

Lemma fetch_writes_own_key_only_witness :
  cache (fetch (answering comic) xkcd_api [("id", "2630")] (fresh 10)).2
    !! cache_key dictionary_api [("word", "some")]
  = cache (fresh 10) !! cache_key dictionary_api [("word", "some")].
Proof.
  refine (proj1 (fetch_writes_own_key_only (answering comic) xkcd_api
    [("id", "2630")] (fresh 10) _ _ (surjective_pairing _))
    (cache_key dictionary_api [("word", "some")]) _).
  unfold cache_key. by intros [= Hurl _].
Defined.

(** X7.  An undeclared parameter is not sent, but it is part of the cache key:
    after a fetch has stored its result, the same call with one more
    parameter that the endpoint does not declare misses the cache and
    sends the same request once more. *)
Theorem undeclared_parameter_defeats_cache
    (E : Env) (api : API) (params : pdict) (k v : string) (url : string)
    (s : state) (r : value) (s1 : state) :
  let params' := params ++ [(k, v)] in
  input_params api !! k = None ->
  k ∉ PyDict.keys params ->
  build_url E api (List.filter (has_kind api URLParam) params) = inr url ->
  cache s !! cache_key api params' = None ->
  fetch E api params s = (Return r, s1) ->
  cache_key api params' <> cache_key api params
  /\ exists o s2,
       fetch E api params' s1 = (o, s2)
       /\ requests_of (trace s2)
          = requests_of (trace s1) ++ [build_request api params url].
Proof.
  intros params' Hund Hnew Hurl Hmiss' Hf.
  assert (Hdecl : List.filter (declared api) params'
                  = List.filter (declared api) params).
  { unfold params'. rewrite List.filter_app. cbn [List.filter].
    unfold declared at 2. cbn [fst]. rewrite Hund.
    rewrite bool_decide_eq_false_2 by (by intros [? ?]).
    apply app_nil_r. }
  destruct (request_of_declared api params' params url Hdecl)
    as [Hurlp Hrq].
  assert (Hkey : cache_key api params' <> cache_key api params).
  { unfold cache_key. intros [= Hset].
    assert (Hin : (k, v) ∈ (list_to_set params : gset (string * string))).
    { rewrite <- Hset, elem_of_list_to_set. unfold params'.
      apply elem_of_app. right. apply list_elem_of_here. }
    apply elem_of_list_to_set in Hin. apply Hnew.
    unfold PyDict.keys. apply list_elem_of_fmap. by exists (k, v). }
  split; [done|].
  assert (Hmiss1 : cache s1 !! cache_key api params' = None).
  { destruct (fetch_cache_write E api params s _ s1 Hf)
      as [->|(r' & _ & _ & ->)]; [done|]. by rewrite lookup_insert_ne. }
  rewrite <- Hurlp in Hurl.
  rewrite (fetch_miss E api params' s1 url Hmiss1 Hurl). rewrite Hrq.
  repeat case_match; eexists _, _; (split; [reflexivity|]);
    cbn [trace]; rewrite !requests_of_app; cbn; by rewrite ?app_nil_r.
Qed.

Lemma undeclared_parameter_defeats_cache_witness :
  cache_key xkcd_api ([("id", "2630")] ++ [("lang", "en")])
  <> cache_key xkcd_api [("id", "2630")].
Proof.
  refine (proj1 (undeclared_parameter_defeats_cache (answering comic)
    xkcd_api [("id", "2630")] "lang" "en" comic_url (fresh 10)
    (fetch_result [("id", "2630")]
       (VDict [("title", VList [VStr "Some Words"])]))
    (fetch (answering comic) xkcd_api [("id", "2630")] (fresh 10)).2
    _ _ _ _ _)).
  - reflexivity.
  - simpl. by intros ?%list_elem_of_singleton.
  - reflexivity.
  - reflexivity.
  - reflexivity.
Defined.

(** ** Path expressions that do not parse *)

Lemma extract_malformed (E : Env) response_json before name path after e :
  forall outputs,
  (forall n p, (n, p) ∈ before -> exists find, jsonpath E p = inr find) ->
  jsonpath E path = inl e ->
  extract E (before ++ (name, path) :: after) response_json outputs = inl e.
Proof.
  induction before as [|[n p] before IH]; intros outputs Hwf Hbad.
  - cbn [app extract]. by rewrite Hbad.
  - destruct (Hwf n p) as [find Hfind]; [apply list_elem_of_here|].
    cbn [app extract]. rewrite Hfind. apply IH; [|done].
    intros n' p' Hin. apply (Hwf n' p'). by apply list_elem_of_further.
Qed.

(** X8.  A declared path that does not parse is found out at fetch time, not
    when the endpoint is declared: on a 200 response the fetch raises the
    parser's exception at the first such path.  By then the request has
    been sent; nothing is stored, so that the next call sends it again. *)
Theorem malformed_path_raises_at_fetch_time
    (E : Env) (api : API) (params : pdict) (s : state) (url : string)
    (response : Response) (response_json : value)
    (before after : dict string) (name path : string) (e : exn) :
  let key := cache_key api params in
  let rq := build_request api params url in
  cache s !! key = None ->
  build_url E api (List.filter (has_kind api URLParam) params) = inr url ->
  session_request E (requests_made s) rq = inr response ->
  status response = 200%Z ->
  json response = inr response_json ->
  output_params api = before ++ (name, path) :: after ->
  (forall n p, (n, p) ∈ before -> exists find, jsonpath E p = inr find) ->
  jsonpath E path = inl e ->
  fetch E api params s
  = (Raise e,
     mkState (cache s) (semaphore s) (S (requests_made s))
             (trace s ++ [EvLookup key false; EvRequest rq]) (results s)).
Proof.
  intros key rq Hmiss Hurl Hresp H200 Hjson Hsplit Hwf Hbad.
  rewrite (fetch_miss E api params s url Hmiss Hurl). fold rq key.
  rewrite Hresp, decide_True, Hjson, Hsplit by done.
  by rewrite (extract_malformed E response_json before name path after e).
Qed.

Lemma malformed_path_raises_at_fetch_time_witness :
  (fetch (answering comic)
     (API_init (base_url xkcd_api) None (Some {[ "id" := URLParam ]})
        (Some [("title", "$.safe_title"); ("number", "$.[num")]) None None
        None)
     [("id", "2630")] (fresh 10)).1
  = Raise (OtherError "JsonPathParserError").
Proof.
  refine (f_equal fst (malformed_path_raises_at_fetch_time (answering comic)
    (API_init (base_url xkcd_api) None (Some {[ "id" := URLParam ]})
       (Some [("title", "$.safe_title"); ("number", "$.[num")]) None None None)
    [("id", "2630")] (fresh 10) comic_url comic
    (VDict [("safe_title", VStr "Some Words")])
    [("title", "$.safe_title")] [] "number" "$.[num"
    (OtherError "JsonPathParserError") _ _ _ _ _ _ _ _)).
  - reflexivity.
  - reflexivity.
  - reflexivity.
  - reflexivity.
  - reflexivity.
  - reflexivity.
  - intros n p Hin. apply list_elem_of_singleton in Hin as [= -> ->].
    by eexists.
  - reflexivity.
Defined.

(** ** More on retries *)

(** A failed attempt, whichever of the two ways it failed. *)
Lemma fetch_failed (E : Env) api params s url st :
  cache s !! cache_key api params = None ->
  build_url E api (List.filter (has_kind api URLParam) params) = inr url ->
  failed_with E (requests_made s) (build_request api params url) st ->
  fetch E api params s
  = (Raise (ClientResponseError st),
     mkState (cache s) (semaphore s) (S (requests_made s))
       (trace s ++ [EvLookup (cache_key api params) false;
                    EvRequest (build_request api params url)])
       (results s)).
Proof.
  intros Hmiss Hurl [Hreq|(response & Hreq & H200 & Hjson)];
    rewrite (fetch_miss E api params s url Hmiss Hurl), Hreq; [done|].
  by rewrite decide_True, Hjson.
Qed.

Lemma retry_loop_failed (E : Env) G api params url st k : forall from rest s,
  cache s !! cache_key api params = None ->
  build_url E api (List.filter (has_kind api URLParam) params) = inr url ->
  (forall i, i < k ->
     failed_with E (requests_made s + i) (build_request api params url)
       (st (from + i))) ->
  retry_loop E G api params ((Z.of_nat <$> seq from k) ++ rest) s
  = retry_loop E G api params rest
      (after_retries api params (build_request api params url) st from k s).
Proof.
  induction k as [|k IH]; intros from rest s Hmiss Hurl Hfail.
  - simpl. f_equal. unfold after_retries, retried_attempts. simpl.
    destruct s; simpl. by rewrite app_nil_r, Nat.add_0_r.
  - pose proof (Hfail 0 ltac:(lia)) as H0. rewrite !Nat.add_0_r in H0.
    pose proof (fetch_failed E api params s url _ Hmiss Hurl H0) as Hf.
    cbn [seq fmap list_fmap app].
    rewrite (retry_loop_retry _ _ _ _ _ _ _ _ _ Hf).
    cbn [cache semaphore requests_made trace results].
    rewrite (IH (S from) rest);
      cbn [cache semaphore requests_made trace results].
    + f_equal. unfold after_retries, retried_attempts, retried_attempt.
      cbn [cache semaphore requests_made trace results seq flat_map].
      f_equal; [lia|]. rewrite <- !app_assoc. reflexivity.
    + done.
    + done.
    + intros i Hi. specialize (Hfail (S i) ltac:(lia)).
      by rewrite <- !Nat.add_succ_comm in Hfail.
Qed.

(** Every attempt fails, in either way: the call gives up. *)
Lemma fetch_with_retry_all_failed (E : Env) G api params s url st :
  let rq := build_request api params url in
  let n := Z.to_nat (max_retries G) in
  (0 < semaphore s)%Z ->
  cache s !! cache_key api params = None ->
  build_url E api (List.filter (has_kind api URLParam) params) = inr url ->
  (forall i, i < n -> failed_with E (requests_made s + i) rq (st i)) ->
  fetch_with_retry E G api params s
  = (Return (VDict []),
     mkState (cache s) (semaphore s) (requests_made s + n)
       (trace s ++ EvCall (base_url api) params
          :: retried_attempts api params rq st 0 n
          ++ [EvLog (LogGiveUp (max_retries G) (base_url api))])
       (results s)).
Proof.
  intros rq n Hsem Hmiss Hurl Hfail.
  erewrite fetch_with_retry_run; [|done|].
  2: { unfold py_range. fold n.
       rewrite <- (app_nil_r (Z.of_nat <$> seq 0 n)).
       rewrite (retry_loop_failed E G api params url st n 0 []); [|done..].
       apply (retry_loop_nil E G api params). }
  unfold after_retries. cbn [cache semaphore requests_made trace results].
  do 2 f_equal. by rewrite <- !app_assoc.
Qed.

(** X9.  A 200 response whose body [response.json()] refuses with a
    [ClientResponseError] counts as a failed attempt, like a request that
    raises: the failure is logged, the call sleeps and asks again.  When
    the body of every attempt is refused, the call returns [{}]; the
    endpoint has been asked [max_retries] times and nothing is stored. *)
Theorem undecodable_body_is_retried
    (E : Env) (G : Getter) (api : API) (params : pdict) (s : state)
    (url : string) (st : nat -> Z) :
  let rq := build_request api params url in
  let n := Z.to_nat (max_retries G) in
  (0 < semaphore s)%Z ->
  cache s !! cache_key api params = None ->
  build_url E api (List.filter (has_kind api URLParam) params) = inr url ->
  (forall i, i < n ->
     exists response,
       session_request E (requests_made s + i) rq = inr response
       /\ status response = 200%Z
       /\ json response = inl (ClientResponseError (st i))) ->
  fetch_with_retry E G api params s
  = (Return (VDict []),
     mkState (cache s) (semaphore s) (requests_made s + n)
       (trace s ++ EvCall (base_url api) params
          :: retried_attempts api params rq st 0 n
          ++ [EvLog (LogGiveUp (max_retries G) (base_url api))])
       (results s)).
Proof.
  intros rq n Hsem Hmiss Hurl Hfail.
  apply fetch_with_retry_all_failed; [done..|].
  intros i Hi. right. by apply Hfail.
Qed.

Lemma undecodable_body_is_retried_witness :
  (fetch_with_retry
     (answering (mkResponse 200 (inl (ClientResponseError 200))))
     (mkGetter 2 10) xkcd_api [("id", "2630")] (fresh 10)).1
  = Return (VDict []).
Proof.
  refine (f_equal fst (undecodable_body_is_retried
    (answering (mkResponse 200 (inl (ClientResponseError 200))))
    (mkGetter 2 10) xkcd_api [("id", "2630")] (fresh 10) comic_url
    (fun _ => 200%Z) _ _ _ _)).
  - simpl. lia.
  - reflexivity.
  - reflexivity.
  - intros i Hi. by eexists.
Defined.

Lemma sum_Z_powers n :
  sum_Z ((fun i => 2 ^ Z.of_nat i)%Z <$> seq 0 n) = (2 ^ Z.of_nat n - 1)%Z.
Proof.
  induction n as [|n IH]; [done|].
  rewrite seq_S, fmap_app. unfold sum_Z in *. rewrite foldr_app. simpl.
  assert (Hshift : forall (l : list Z) a,
    foldr Z.add a l = (foldr Z.add 0 l + a)%Z).
  { intros l a. induction l as [|x l IHl]; simpl; lia. }
  rewrite Hshift, IH. rewrite Nat2Z.inj_succ, Z.pow_succ_r by lia. lia.
Qed.

(** X10.  What giving up costs: when every one of the [n = max_retries]
    attempts fails, the call has sent [n] requests and has slept after
    each of them, the last one included: [2 ^ n - 1] seconds in all. *)
Theorem giving_up_costs
    (E : Env) (G : Getter) (api : API) (params : pdict) (s : state)
    (url : string) (st : nat -> Z) :
  let rq := build_request api params url in
  let n := Z.to_nat (max_retries G) in
  (0 < semaphore s)%Z ->
  cache s !! cache_key api params = None ->
  build_url E api (List.filter (has_kind api URLParam) params) = inr url ->
  (forall i, i < n -> failed_with E (requests_made s + i) rq (st i)) ->
  exists evs,
    trace (fetch_with_retry E G api params s).2 = trace s ++ evs
    /\ requests_of evs = replicate n rq
    /\ sleeps_of evs = (fun i => 2 ^ Z.of_nat i)%Z <$> seq 0 n
    /\ sum_Z (sleeps_of evs) = (2 ^ Z.of_nat n - 1)%Z.
Proof.
  intros rq n Hsem Hmiss Hurl Hfail.
  rewrite (fetch_with_retry_all_failed E G api params s url st); [|done..].
  fold rq n. eexists. split; [reflexivity|].
  assert (Hsl : sleeps_of
    (EvCall (base_url api) params
       :: retried_attempts api params rq st 0 n
       ++ [EvLog (LogGiveUp (max_retries G) (base_url api))])
    = (fun i => 2 ^ Z.of_nat i)%Z <$> seq 0 n).
  { change (sleeps_of (retried_attempts api params rq st 0 n
              ++ [EvLog (LogGiveUp (max_retries G) (base_url api))])
            = (fun i => 2 ^ Z.of_nat i)%Z <$> seq 0 n).
    rewrite sleeps_of_app, sleeps_of_retried_attempts. apply app_nil_r. }
  split_and!.
  - change (requests_of (retried_attempts api params rq st 0 n
              ++ [EvLog (LogGiveUp (max_retries G) (base_url api))])
            = replicate n rq).
    rewrite requests_of_app, requests_of_retried_attempts. apply app_nil_r.
  - exact Hsl.
  - rewrite Hsl. apply sum_Z_powers.
Qed.

Lemma giving_up_costs_witness :
  exists evs,
    trace (fetch_with_retry (failing (ClientResponseError 503))
             (mkGetter 5 10) xkcd_api [("id", "2630")] (fresh 10)).2
    = trace (fresh 10) ++ evs
    /\ sum_Z (sleeps_of evs) = 31%Z.
Proof.
  destruct (giving_up_costs (failing (ClientResponseError 503))
    (mkGetter 5 10) xkcd_api [("id", "2630")] (fresh 10) comic_url
    (fun _ => 503%Z)) as (evs & Ht & _ & _ & Hsum).
  - simpl. lia.
  - reflexivity.
  - reflexivity.
  - intros i Hi. by left.
  - exists evs. split; [exact Ht | exact Hsum].
Defined.

(** ** Permits, requests and results of [fetch_with_retry] *)

(** What a call of [fetch_with_retry] does to the state, whatever its
    outcome. *)
Lemma fetch_with_retry_cases (E : Env) G api params s :
  ((semaphore s <= 0)%Z
   /\ fetch_with_retry E G api params s
      = (Hang, mkState (cache s) (semaphore s) (requests_made s)
                       (trace s ++ [EvCall (base_url api) params])
                       (results s)))
  \/ ((0 < semaphore s)%Z
      /\ exists o s1,
           retry_loop E G api params (py_range (max_retries G))
             (mkState (cache s) (semaphore s - 1) (requests_made s)
                      (trace s ++ [EvCall (base_url api) params]) (results s))
           = (o, s1)
           /\ o <> Hang
           /\ fetch_with_retry E G api params s
              = (o, mkState (cache s1) (semaphore s) (requests_made s1)
                            (trace s1) (results s1))).
Proof.
  destruct (decide (semaphore s <= 0)%Z) as [Hsem|Hsem].
  - left. split; [done|]. by apply fetch_with_retry_hangs.
  - right. split; [lia|].
    destruct (retry_loop E G api params (py_range (max_retries G))
      (mkState (cache s) (semaphore s - 1) (requests_made s)
               (trace s ++ [EvCall (base_url api) params]) (results s)))
      as [o s1] eqn:Hl.
    exists o, s1. split_and!; [done| |].
    + by apply retry_loop_footprint in Hl as [_ ?].
    + apply fetch_with_retry_run; [lia|done].
Qed.



Lemma retry_loop_requests (E : Env) G api params retries : forall s o s',
  retry_loop E G api params retries s = (o, s') ->
  requests_made s <= requests_made s' <= requests_made s + length retries.
Proof.
  induction retries as [|retry retries IH]; intros s o s' Hl.
  - rewrite retry_loop_nil in Hl. simplify_eq. simpl. lia.
  - destruct (fetch E api params s) as [o1 s1] eqn:Hf.
    pose proof (fetch_footprint _ _ _ _ _ _ Hf)
      as ((_ & _ & _ & evs & _ & _ & Hq) & Hhang & Hle & _).
    assert (Hone : requests_made s <= requests_made s1 <= S (requests_made s))
      by lia.
    destruct o1 as [r|e|]; [| |done].
    + rewrite (retry_loop_return _ _ _ _ _ _ _ _ _ Hf) in Hl.
      simplify_eq. simpl. lia.
    + destruct e as [st| | | | | |];
        try (rewrite (retry_loop_raise _ _ _ _ _ _ _ _ _ Hf) in Hl by done;
             simplify_eq; simpl; lia).
      rewrite (retry_loop_retry _ _ _ _ _ _ _ _ _ Hf) in Hl.
      apply IH in Hl. simpl in Hl |- *. lia.
Qed.

(** X12.  A call of [fetch_with_retry] sends [max_retries] requests at most,
    and none when [max_retries] is zero or negative. *)
Theorem fetch_with_retry_sends_at_most_max_retries
    (E : Env) (G : Getter) (api : API) (params : pdict) (s : state) :
  let r := fetch_with_retry E G api params s in
  requests_made s <= requests_made r.2
  /\ requests_made r.2 <= requests_made s + Z.to_nat (max_retries G)
  /\ ((max_retries G <= 0)%Z -> requests_made r.2 = requests_made s).
Proof.
  assert (Hlen : length (py_range (max_retries G)) = Z.to_nat (max_retries G)).
  { unfold py_range. by rewrite length_fmap, length_seq. }
  destruct (fetch_with_retry_cases E G api params s)
    as [[Hsem ->]|(Hsem & o & s1 & Hl & Ho & ->)]; simpl.
  - split_and!; [lia|lia|done].
  - apply retry_loop_requests in Hl. rewrite Hlen in Hl. simpl in Hl.
    split_and!; [lia|lia|]. intros Hmr. lia.
Qed.

Lemma fetch_with_retry_sends_at_most_max_retries_witness :
  requests_made (fetch_with_retry (failing (ClientResponseError 503))
                   (mkGetter (-2) 10) xkcd_api [("id", "2630")] (fresh 10)).2
  = requests_made (fresh 10).
Proof.
  refine (proj2 (proj2 (fetch_with_retry_sends_at_most_max_retries
    (failing (ClientResponseError 503)) (mkGetter (-2) 10) xkcd_api
    [("id", "2630")] (fresh 10))) _).
  simpl. lia.
Defined.

Lemma retry_loop_result (E : Env) G api params retries : forall s v s',
  retry_loop E G api params retries s = (Return v, s') ->
  cache s' !! cache_key api params = Some v \/ v = VDict [].
Proof.
  induction retries as [|retry retries IH]; intros s v s' Hl.
  - rewrite retry_loop_nil in Hl. simplify_eq. by right.
  - destruct (fetch E api params s) as [o1 s1] eqn:Hf.
    pose proof (fetch_footprint _ _ _ _ _ _ Hf) as (_ & Hhang & _ & Hst & _).
    destruct o1 as [r|e|]; [| |done].
    + rewrite (retry_loop_return _ _ _ _ _ _ _ _ _ Hf) in Hl.
      simplify_eq. left. by apply Hst.
    + destruct e as [st| | | | | |];
        try (by rewrite (retry_loop_raise _ _ _ _ _ _ _ _ _ Hf) in Hl).
      rewrite (retry_loop_retry _ _ _ _ _ _ _ _ _ Hf) in Hl.
      by apply IH in Hl.
Qed.

(** X13.  What [fetch_with_retry] returns is in the cache under the key of the
    call, unless it is the [{}] of a call that gave up: the empty result
    is the only one that is returned without being stored. *)
Theorem fetch_with_retry_result_is_cached
    (E : Env) (G : Getter) (api : API) (params : pdict) (s : state)
    (v : value) :
  let r := fetch_with_retry E G api params s in
  r.1 = Return v ->
  cache r.2 !! cache_key api params = Some v \/ v = VDict [].
Proof.
  destruct (fetch_with_retry_cases E G api params s)
    as [[Hsem ->]|(Hsem & o & s1 & Hl & Ho & ->)]; simpl; [done|].
  intros ->. by apply retry_loop_result in Hl.
Qed.

Lemma fetch_with_retry_result_is_cached_witness :
  cache (fetch_with_retry (answering comic) (mkGetter 3 10) xkcd_api
           [("id", "2630")] (fresh 10)).2
    !! cache_key xkcd_api [("id", "2630")]
  = Some (fetch_result [("id", "2630")]
            (VDict [("title", VList [VStr "Some Words"])]))
  \/ fetch_result [("id", "2630")]
       (VDict [("title", VList [VStr "Some Words"])]) = VDict [].
Proof.
  apply (fetch_with_retry_result_is_cached (answering comic) (mkGetter 3 10)
           xkcd_api [("id", "2630")] (fresh 10)).
  reflexivity.
Defined.

(** ** The accumulator *)

#[global] Instance writes_only_preorder keys : PreOrder (writes_only keys).
Proof.
  split.
  - by intros s k _.
  - intros s1 s2 s3 H12 H23 k Hk. rewrite (H23 k Hk). by apply H12.
Qed.

Lemma writes_only_same keys s s' :
  results s' = results s -> writes_only keys s s'.
Proof. intros Hr k _. by rewrite Hr. Qed.

Lemma fetch_with_retry_keeps_results (E : Env) G api params s :
  results (fetch_with_retry E G api params s).2 = results s.
Proof.
  destruct (fetch_with_retry_cases E G api params s)
    as [[Hsem ->]|(Hsem & o & s1 & Hl & Ho & ->)]; simpl; [done|].
  by apply retry_loop_footprint in Hl as ((_ & ? & _) & _).
Qed.

Lemma fan_out_writes_only (E : Env) G end_api f key v keys :
  base_url end_api ∈ keys ->
  preserves (writes_only keys) (fan_out E G end_api f key v).
Proof.
  intros Hin. unfold fan_out.
  apply preserves_bind; [apply _ | |].
  { intros s o s' [= <- <-]. by apply writes_only_same. }
  intros _. apply preserves_bind; [apply _ | apply preserves_lift, _ |].
  intros ps. apply preserves_bind; [apply _ | |].
  - apply preserves_gather; [apply _|]. apply Forall_fmap, Forall_forall.
    intros p _ s o s' Hf. apply writes_only_same.
    rewrite <- (fetch_with_retry_keeps_results E G end_api p s).
    by rewrite Hf.
  - intros rs. apply preserves_for_each; [apply _|]. intros r.
    apply preserves_bind; [apply _ | |].
    + intros s o s' [= <- <-] k Hk. simpl. apply dict_get_set_ne.
      intros <-. by apply Hk.
    + intros _ s o s' [= <- <-]. by apply writes_only_same.
Qed.

(** X14.  A linkage step writes two entries of the accumulator and no other:
    the one of its start endpoint and the one of its end endpoint.  This
    holds however the step ends. *)
Theorem linkage_step_writes_two_entries
    (E : Env) (G : Getter) (start_api end_api : API)
    (f : dict value -> exn + list pdict) (params : pdict) (s : state)
    (k : string) :
  k <> base_url start_api ->
  k <> base_url end_api ->
  PyDict.get
    (results (process_linkage E G (APILinkage start_api end_api f)
                params s).2) k
  = PyDict.get (results s) k.
Proof.
  intros Hstart Hend.
  set (keys := [base_url start_api; base_url end_api]).
  assert (Hp : preserves (writes_only keys)
                 (process_linkage E G (APILinkage start_api end_api f) params)).
  { cbn [process_linkage].
    apply preserves_bind; [apply _ | |].
    { intros s0 o s' Hf. apply writes_only_same.
      rewrite <- (fetch_with_retry_keeps_results E G start_api params s0).
      by rewrite Hf. }
    intros start_response. apply preserves_bind; [apply _ | |].
    { intros s0 o s' [= <- <-] k' Hk'. simpl. apply dict_get_set_ne.
      intros <-. apply Hk'. apply list_elem_of_here. }
    intros _. apply preserves_bind; [apply _ | apply preserves_lift, _ |].
    intros ov. apply preserves_bind; [apply _ | apply preserves_lift, _ |].
    intros outs. apply preserves_bind; [apply _ | |].
    - apply preserves_for_each; [apply _|]. intros kv.
      apply preserves_for_each; [apply _|]. intros v.
      apply fan_out_writes_only. unfold keys.
      apply list_elem_of_further, list_elem_of_here.
    - intros _ s0 o s' [= <- <-]. reflexivity. }
  apply (Hp s _ _ (surjective_pairing _)).
  unfold keys. rewrite !not_elem_of_cons. split_and!; [done|done|].
  apply not_elem_of_nil.
Qed.

Lemma linkage_step_writes_two_entries_witness :
  PyDict.get
    (results (process_linkage (answering not_found) (mkGetter 3 10)
                (APILinkage titles_api dictionary_api wrap_word)
                [("id", "2630")]
                (mkState ∅ 10 0 [] [("comic", VNone)])).2) "comic"
  = PyDict.get (results (mkState ∅ 10 0 [] [("comic", VNone)])) "comic".
Proof.
  apply (linkage_step_writes_two_entries (answering not_found)
           (mkGetter 3 10) titles_api dictionary_api wrap_word [("id", "2630")]
           (mkState ∅ 10 0 [] [("comic", VNone)]) "comic"); done.
Defined.

(** ** Flows of transform steps *)

Lemma gather_transforms (E : Env) G params fs : forall s accs,
  apply_transforms fs (results s) = inr accs ->
  gather ((fun l => process_linkage E G l params) <$> (PythonLinkage <$> fs)) s
  = (Return accs,
     mkState (cache s) (semaphore s) (requests_made s)
             (trace s ++ (EvCallback <$> accs))
             (default (results s) (last accs))).
Proof.
  induction fs as [|f fs IH]; intros s accs Happ.
  - simpl in Happ. simplify_eq. simpl. unfold ret. destruct s; simpl.
    by rewrite app_nil_r.
  - cbn [apply_transforms] in Happ.
    destruct (f (results s)) as [e|delta] eqn:Hf; [done|].
    set (acc' := PyDict.update (results s) delta) in *.
    destruct (apply_transforms fs acc') as [e|accs'] eqn:Hrest; [done|].
    simplify_eq.
    cbn [fmap list_fmap gather].
    erewrite bind_Return.
    2: { cbn [process_linkage]. erewrite bind_Return.
         2: { unfold lift. rewrite Hf. reflexivity. }
         reflexivity. }
    fold acc'. erewrite bind_Return.
    2: { apply (IH (mkState (cache s) (semaphore s) (requests_made s)
                       (trace s ++ [EvCallback acc']) acc')). exact Hrest. }
    unfold ret. cbn [cache semaphore requests_made trace results].
    rewrite <- app_assoc. cbn [fmap list_fmap app].
    assert (Hlast : default acc' (last accs')
                    = default (results s) (last (acc' :: accs'))).
    { destruct accs' as [|a accs'']; [done|]. rewrite last_cons_cons.
      destruct (last (a :: accs'')) eqn:Hl; [done|].
      by apply last_None in Hl. }
    by rewrite Hlast.
Qed.

(** X15.  A flow made of transform steps only.  The accumulator starts empty,
    whatever an earlier run has left and whatever the start parameters
    are; each function is applied to the accumulator that the functions
    before it have built, and its delta is merged in; the callback sees
    each of these accumulators in turn.  No request is sent, and cache and
    semaphore are not touched. *)
Theorem transform_flow_threads_accumulator
    (E : Env) (G : Getter) (fs : list (dict value -> exn + dict value))
    (params : pdict) (s : state) (accs : list (dict value)) :
  apply_transforms fs [] = inr accs ->
  run_flow E G (mkAPIFlow (PythonLinkage <$> fs)) params s
  = (Return tt,
     mkState (cache s) (semaphore s) (requests_made s)
             (trace s ++ (EvCallback <$> accs))
             (default [] (last accs))).
Proof.
  intros Happ. unfold run_flow.
  erewrite bind_Return; [|reflexivity].
  erewrite bind_Return.
  2: { cbn [linkages]. apply gather_transforms. exact Happ. }
  reflexivity.
Qed.

Lemma transform_flow_threads_accumulator_witness :
  run_flow (answering comic) (mkGetter 3 10)
    (mkAPIFlow (PythonLinkage <$>
       [(fun _ => inr [("n", VInt 1)]);
        (fun acc => inr [("seen", default VNone (PyDict.get acc "n"))])]))
    [("id", "2630")] (mkState ∅ 10 0 [] [("old", VNone)])
  = (Return tt,
     mkState ∅ 10 0
       ([] ++ (EvCallback <$>
          [[("n", VInt 1)]; [("n", VInt 1); ("seen", VInt 1)]]))
       (default [] (last [[("n", VInt 1)];
                          [("n", VInt 1); ("seen", VInt 1)]]))).
Proof.
  apply (transform_flow_threads_accumulator (answering comic) (mkGetter 3 10)
    [(fun _ => inr [("n", VInt 1)]);
     (fun acc => inr [("seen", default VNone (PyDict.get acc "n"))])]
    [("id", "2630")] (mkState ∅ 10 0 [] [("old", VNone)])).
  reflexivity.
Defined.

(** ** The demo flow *)

(** X16.  The demo flow on a comic whose 200 response holds no title: the
    field is recorded as [None] and handed to [xkcd_to_dictionary], which
    calls [split] on it.  The run ends with an [AttributeError]: the
    comic's result is stored, no dictionary lookup is made and the callback
    is not called. *)
Theorem demo_flow_without_title_raises
    (E : Env) (G : Getter) (split : string -> list string)
    (lower : string -> string) (params : pdict) (s : state) (url : string)
    (response : Response) (response_json : value)
    (find : value -> list value) :
  let key := cache_key xkcd_api params in
  let rq := build_request xkcd_api params url in
  let comic_result := fetch_result params (VDict [("title", VNone)]) in
  (0 < semaphore s)%Z ->
  (0 < max_retries G)%Z ->
  cache s !! key = None ->
  build_url E xkcd_api (List.filter (has_kind xkcd_api URLParam) params)
  = inr url ->
  session_request E (requests_made s) rq = inr response ->
  status response = 200%Z ->
  json response = inr response_json ->
  jsonpath E "$.safe_title" = inr find ->
  find response_json = [] ->
  run_flow E G (demo_flow split lower) params s
  = (Raise (AttributeError "split"),
     mkState (<[key := comic_result]> (cache s)) (semaphore s)
       (S (requests_made s))
       (trace s ++ [EvCall (base_url xkcd_api) params; EvLookup key false;
                    EvRequest rq; EvLinkage [("title", VNone)]])
       [(base_url xkcd_api, comic_result)]).
Proof.
  intros key rq comic_result Hsem Hmr Hmiss Hurl Hresp H200 Hjson Hpath Hfind.
  set (s0 := mkState (cache s) (semaphore s) (requests_made s) (trace s) []).
  assert (Hstart : fetch_with_retry E G xkcd_api params s0
    = (Return comic_result,
       mkState (<[key := comic_result]> (cache s)) (semaphore s)
         (S (requests_made s))
         (trace s ++ [EvCall (base_url xkcd_api) params; EvLookup key false;
                      EvRequest rq]) [])).
  { assert (Hnd : NoDup (PyDict.keys (output_params xkcd_api)))
      by (cbn; apply NoDup_singleton).
    assert (Hwf : forall name path, (name, path) ∈ output_params xkcd_api ->
                    exists find', jsonpath E path = inr find').
    { intros name path Hin. cbn in Hin.
      apply list_elem_of_singleton in Hin as [= -> ->]. by eexists. }
    pose proof (fetch_with_retry_200 E G xkcd_api params s0 url response
      response_json Hsem Hmr Hmiss Hurl Hresp H200 Hjson Hnd Hwf) as H.
    change (output_params xkcd_api) with [("title", "$.safe_title")] in H.
    cbn [fmap list_fmap fst snd] in H.
    unfold matches in H. rewrite Hpath, Hfind in H. exact H. }
  unfold run_flow, demo_flow. cbn [linkages fmap list_fmap gather].
  unfold bind at 1, results_set. fold s0.
  unfold bind at 1. unfold bind at 1.
  rewrite (process_linkage_after_start E G xkcd_api dictionary_api _ params
             s0 comic_result _ [("title", VNone)] Hstart eq_refl).
  cbn [for_each as_list fst snd]. unfold fan_out, bind, emit, lift.
  cbn [xkcd_to_dictionary PyDict.get cache semaphore requests_made trace
       results].
  rewrite <- app_assoc. reflexivity.
Qed.

Lemma demo_flow_without_title_raises_witness :
  (run_flow (answering no_title) (mkGetter 3 10)
     (demo_flow str_split str_lower) [("id", "2630")] (fresh 10)).1
  = Raise (AttributeError "split").
Proof.
  refine (f_equal fst (demo_flow_without_title_raises (answering no_title)
    (mkGetter 3 10) str_split str_lower [("id", "2630")] (fresh 10)
    comic_url no_title (VDict [("num", VInt 1)])
    (path_find [Field "safe_title"]) _ _ _ _ _ _ _ _ _)).
  - simpl. lia.
  - simpl. lia.
  - reflexivity.
  - reflexivity.
  - reflexivity.
  - reflexivity.
  - reflexivity.
  - reflexivity.
  - reflexivity.
Defined.

(** X17.  The demo flow end to end, on a comic whose title is one string with
    at least one word, when the lookup of the first word of the title in
    lower case can only fail with a [ClientResponseError]: the dictionary
    endpoint is asked once, for that word, and the callback is called
    once, on an accumulator that holds the comic's result and the
    dictionary's, each under the base URL of its endpoint. *)
Theorem demo_flow_looks_up_first_word
    (E : Env) (G : Getter) (split : string -> list string)
    (lower : string -> string) (params : pdict) (s : state) (url : string)
    (response : Response) (response_json : value)
    (find : value -> list value) (title w : string) (ws : list string) :
  let key := cache_key xkcd_api params in
  let rq := build_request xkcd_api params url in
  let comic_result :=
    fetch_result params (VDict [("title", VList [VStr title])]) in
  (0 < semaphore s)%Z ->
  (0 < max_retries G)%Z ->
  cache s !! key = None ->
  build_url E xkcd_api (List.filter (has_kind xkcd_api URLParam) params)
  = inr url ->
  session_request E (requests_made s) rq = inr response ->
  status response = 200%Z ->
  json response = inr response_json ->
  jsonpath E "$.safe_title" = inr find ->
  find response_json = [VStr title] ->
  split title = w :: ws ->
  retryable_on E dictionary_api [("word", lower w)] ->
  exists definition net s',
    let acc := [(base_url xkcd_api, comic_result);
                (base_url dictionary_api, definition)] in
    run_flow E G (demo_flow split lower) params s = (Return tt, s')
    /\ results s' = acc
    /\ trace s'
       = trace s
           ++ [EvCall (base_url xkcd_api) params; EvLookup key false;
               EvRequest rq; EvLinkage [("title", VStr title)];
               EvCall (base_url dictionary_api) [("word", lower w)]]
           ++ net ++ [EvCallback acc]
    /\ forallb is_network_event net = true.
Proof.
  intros key rq comic_result Hsem Hmr Hmiss Hurl Hresp H200 Hjson Hpath Hfind
    Hsplit Hok.
  set (s0 := mkState (cache s) (semaphore s) (requests_made s) (trace s) []).
  set (s1 := mkState (<[key := comic_result]> (cache s)) (semaphore s)
               (S (requests_made s))
               (trace s ++ [EvCall (base_url xkcd_api) params;
                            EvLookup key false; EvRequest rq]) []).
  assert (Hstart : fetch_with_retry E G xkcd_api params s0
                   = (Return comic_result, s1)).
  { assert (Hnd : NoDup (PyDict.keys (output_params xkcd_api)))
      by (cbn; apply NoDup_singleton).
    assert (Hwf : forall name path, (name, path) ∈ output_params xkcd_api ->
                    exists find', jsonpath E path = inr find').
    { intros name path Hin. cbn in Hin.
      apply list_elem_of_singleton in Hin as [= -> ->]. by eexists. }
    pose proof (fetch_with_retry_200 E G xkcd_api params s0 url response
      response_json Hsem Hmr Hmiss Hurl Hresp H200 Hjson Hnd Hwf) as H.
    change (output_params xkcd_api) with [("title", "$.safe_title")] in H.
    cbn [fmap list_fmap fst snd] in H.
    unfold matches in H. rewrite Hpath, Hfind in H. exact H. }
  set (f := xkcd_to_dictionary split lower).
  assert (Hf : f [("title", VStr title)] = inr [[("word", lower w)]]).
  { unfold f, xkcd_to_dictionary. cbn [PyDict.get].
    rewrite decide_True by done. cbn [default from_option id].
    by rewrite Hsplit. }
  set (s2 := mkState (cache s1) (semaphore s1) (requests_made s1) (trace s1)
               (PyDict.set (results s1) (base_url xkcd_api) comic_result)).
  destruct (fan_out_single E G dictionary_api f "title" (VStr title)
    [("word", lower w)] s2 Hok Hsem Hf)
    as (definition & net & sB & Hfetch & HtB & Hnet & Hfan).
  exists definition, net. eexists. cbn zeta. split_and!.
  - unfold run_flow, demo_flow. cbn [linkages fmap list_fmap gather].
    unfold bind at 1, results_set. fold s0 f.
    erewrite bind_Return; [reflexivity|].
    erewrite bind_Return; [reflexivity|].
    rewrite (process_linkage_after_start E G xkcd_api dictionary_api f params
               s0 comic_result s1 [("title", VList [VStr title])] Hstart
               eq_refl).
    fold s2. erewrite bind_Return; [reflexivity|].
    cbn [for_each as_list fst snd].
    erewrite bind_Return; [reflexivity|].
    erewrite bind_Return; [reflexivity|exact Hfan].
  - reflexivity.
  - cbn [trace]. rewrite HtB. unfold s2, s1. cbn [trace].
    rewrite <- !app_assoc. reflexivity.
  - exact Hnet.
Qed.

Lemma demo_flow_looks_up_first_word_witness :
  exists definition net s',
    run_flow (answering comic) (mkGetter 3 10)
      (demo_flow str_split str_lower) [("id", "2630")] (fresh 10)
    = (Return tt, s')
    /\ results s'
       = [(base_url xkcd_api,
           fetch_result [("id", "2630")]
             (VDict [("title", VList [VStr "Some Words"])]));
          (base_url dictionary_api, definition)]
    /\ fetch_calls_of (trace s')
       = [(base_url xkcd_api, [("id", "2630")]);
          (base_url dictionary_api, [("word", "some")])]
    /\ forallb is_network_event net = true.
Proof.
  destruct (demo_flow_looks_up_first_word (answering comic) (mkGetter 3 10)
    str_split str_lower [("id", "2630")]
    (fresh 10) comic_url comic
    (VDict [("safe_title", VStr "Some Words")])
    (path_find [Field "safe_title"])
    "Some Words" "Some" ["Words"]
    ltac:(simpl; lia) ltac:(simpl; lia) eq_refl eq_refl eq_refl eq_refl
    eq_refl eq_refl eq_refl eq_refl (dictionary_lookup_answered _ _))
    as (definition & net & s' & Hrun & Hres & Htrace & Hnet).
  exists definition, net, s'.
  split_and!; [exact Hrun | exact Hres | | exact Hnet].
  rewrite Htrace.
  destruct (network_events_silent net Hnet) as (Hc & _).
  rewrite !fetch_calls_of_app, Hc. reflexivity.
Defined.

(** ** Endpoints declared by their URL alone *)



(** ** The cache behind [fetch_with_retry] *)

(** X19.  A stored result is served through [fetch_with_retry] as long as the
    getter is allowed one attempt: no request, no sleep.  A getter with no
    attempt at all does not even look: it answers [{}] for a key whose
    result is in the cache. *)
Theorem fetch_with_retry_serves_cache
    (E : Env) (G : Getter) (api : API) (params : pdict) (s : state)
    (r : value) :
  (0 < semaphore s)%Z ->
  cache s !! cache_key api params = Some r ->
  ((0 < max_retries G)%Z ->
   fetch_with_retry E G api params s
   = (Return r,
      mkState (cache s) (semaphore s) (requests_made s)
        (trace s ++ [EvCall (base_url api) params;
                     EvLookup (cache_key api params) true])
        (results s)))
  /\ ((max_retries G <= 0)%Z ->
      fetch_with_retry E G api params s
      = (Return (VDict []),
         mkState (cache s) (semaphore s) (requests_made s)
           (trace s ++ [EvCall (base_url api) params;
                        EvLog (LogGiveUp (max_retries G) (base_url api))])
           (results s))).
Proof.
  intros Hsem Hhit. split; intros Hmr.
  - erewrite fetch_with_retry_first_attempt; [|done|done|].
    2: { by apply fetch_hit. }
    cbn [cache semaphore requests_made trace results].
    by rewrite <- app_assoc.
  - erewrite fetch_with_retry_run; [|done|].
    2: { unfold py_range. rewrite Z2Nat.nonpos by done.
         apply (retry_loop_nil E G api params). }
    cbn [cache semaphore requests_made trace results].
    by rewrite <- app_assoc.
Qed.

Lemma fetch_with_retry_serves_cache_witness :
  fetch_with_retry (failing ConnectionResetError) (mkGetter 1 10) xkcd_api
    [("id", "2630")]
    (mkState {[ cache_key xkcd_api [("id", "2630")] := VDict [] ]} 10 0 [] [])
  = (Return (VDict []),
     mkState {[ cache_key xkcd_api [("id", "2630")] := VDict [] ]} 10 0
       ([] ++ [EvCall (base_url xkcd_api) [("id", "2630")];
               EvLookup (cache_key xkcd_api [("id", "2630")]) true])
       []).
Proof.
  refine (proj1 (fetch_with_retry_serves_cache (failing ConnectionResetError)
    (mkGetter 1 10) xkcd_api [("id", "2630")]
    (mkState {[ cache_key xkcd_api [("id", "2630")] := VDict [] ]} 10 0 [] [])
    (VDict []) _ _) _).
  - simpl. lia.
  - apply lookup_singleton_eq.
  - simpl. lia.
Defined.

(** ** Before the request, after the handler *)

(** X20.  A URL that cannot be built ([str.format] raising, as for a
    placeholder without a URL parameter) ends the call before anything is
    sent: the exception is none that the retry loop catches, so there is
    one attempt, no request and no sleep. *)
Theorem unbuildable_url_sends_nothing
    (E : Env) (G : Getter) (api : API) (params : pdict) (s : state)
    (e : exn) :
  (0 < semaphore s)%Z ->
  (0 < max_retries G)%Z ->
  cache s !! cache_key api params = None ->
  build_url E api (List.filter (has_kind api URLParam) params) = inl e ->
  (forall st, e <> ClientResponseError st) ->
  fetch_with_retry E G api params s
  = (Raise e,
     mkState (cache s) (semaphore s) (requests_made s)
       (trace s ++ [EvCall (base_url api) params;
                    EvLookup (cache_key api params) false])
       (results s)).
Proof.
  intros Hsem Hmr Hmiss Hurl Hne.
  erewrite fetch_with_retry_run; [|done|].
  2: { unfold py_range.
       destruct (Z.to_nat (max_retries G)) as [|n] eqn:Hn; [lia|].
       cbn [seq fmap list_fmap]. apply retry_loop_raise; [|done].
       unfold fetch. cbn [cache]. rewrite Hmiss.
       unfold bind, emit, lift. cbn. rewrite Hurl. reflexivity. }
  cbn [cache semaphore requests_made trace results].
  by rewrite <- app_assoc.
Qed.

Lemma unbuildable_url_sends_nothing_witness :
  (fetch_with_retry (answering comic) (mkGetter 3 10) xkcd_api
     [("word", "some")] (fresh 10)).1
  = Raise (KeyError "id").
Proof.
  refine (f_equal fst (unbuildable_url_sends_nothing (answering comic)
    (mkGetter 3 10) xkcd_api [("word", "some")] (fresh 10) (KeyError "id")
    _ _ _ _ _)).
  - simpl. lia.
  - simpl. lia.
  - reflexivity.
  - reflexivity.
  - done.
Defined.

(** X21.  An error handler is trusted to return a map.  When it returns
    anything else, the fetch succeeds all the same and stores that value
    as the output; the linkage step that asked for it then raises an
    [AttributeError] on [outputs.items()], with the result already in the
    cache and in the accumulator. *)
Theorem handler_output_that_is_no_map
    (E : Env) (G : Getter) (start_api end_api : API)
    (f : dict value -> exn + list pdict) (params : pdict) (s : state)
    (url : string) (response : Response)
    (error_handler : Response -> exn + value) (output : value) :
  let key := cache_key start_api params in
  let rq := build_request start_api params url in
  let r := fetch_result params output in
  (0 < semaphore s)%Z ->
  (0 < max_retries G)%Z ->
  cache s !! key = None ->
  build_url E start_api (List.filter (has_kind start_api URLParam) params)
  = inr url ->
  session_request E (requests_made s) rq = inr response ->
  status response <> 200%Z ->
  error_handlers start_api !! status response = Some error_handler ->
  error_handler response = inr output ->
  is_dict output = false ->
  process_linkage E G (APILinkage start_api end_api f) params s
  = (Raise (AttributeError "items"),
     mkState (<[key := r]> (cache s)) (semaphore s) (S (requests_made s))
       (trace s ++ [EvCall (base_url start_api) params; EvLookup key false;
                    EvRequest rq; EvHandler (status response)])
       (PyDict.set (results s) (base_url start_api) r)).
Proof.
  intros key rq r Hsem Hmr Hmiss Hurl Hresp Hstatus Hh Hout Hnodict.
  cbn [process_linkage].
  erewrite bind_Return.
  2: { erewrite fetch_with_retry_first_attempt; [reflexivity|done|done|].
       rewrite (fetch_miss E start_api params _ url); [|done..].
       cbn [requests_made]. fold rq key.
       rewrite Hresp, decide_False, Hh, Hout by done. reflexivity. }
  unfold bind, results_put, lift.
  cbn [cache semaphore requests_made trace results subscript fetch_result
       PyDict.get].
  rewrite decide_False by done. rewrite decide_True by done.
  rewrite <- !app_assoc.
  destruct output; try done.
Qed.

Lemma handler_output_that_is_no_map_witness :
  (process_linkage (answering not_found) (mkGetter 3 10)
     (APILinkage
        (API_init (base_url xkcd_api) None (Some {[ "id" := URLParam ]}) None
           None
           (Some {[ 404%Z := fun _ => inr VNone ]}) None)
        dictionary_api wrap_word)
     [("id", "2630")] (fresh 10)).1
  = Raise (AttributeError "items").
Proof.
  refine (f_equal fst (handler_output_that_is_no_map (answering not_found)
    (mkGetter 3 10)
    (API_init (base_url xkcd_api) None (Some {[ "id" := URLParam ]}) None
           None
       (Some {[ 404%Z := fun _ => inr VNone ]}) None)
    dictionary_api wrap_word [("id", "2630")] (fresh 10) comic_url
    not_found (fun _ => inr VNone) VNone _ _ _ _ _ _ _ _ _)).
  - simpl. lia.
  - simpl. lia.
  - reflexivity.
  - reflexivity.
  - reflexivity.
  - done.
  - reflexivity.
  - reflexivity.
  - reflexivity.
Defined.
